(** * homelab-monitor: the dashboard orchestrator ([dashboard/run.py])

    A shallow embedding of the process supervisor: the stream piper
    ([_pipe_stream]), process termination ([terminate_process]), the HTTP
    health probe ([wait_for_http]) and the supervisor itself ([main]).

    Conventions of the model.
    - Time is counted in milliseconds on the event loop's clock, as [Z];
      Python's float seconds [20.0], [0.5] and [5.0] are [20000], [500]
      and [5000].
    - Everything the program cannot decide by itself (the file system, the
      children's behaviour, the HTTP endpoint, signal delivery) is read
      from an [environment] record.
    - Asynchronous code is written in a small monad [M] over a [world]
      that holds the clock, the stop event, the two process handles and
      the list of observable events, oldest first. *)

From stdpp Require Import gmap strings list pretty.
From Stdlib Require Import ZArith Lia.

Open Scope Z_scope.

(** ** Text read from pipes

    A Python [str] is a sequence of code points. *)

Definition pystr := list N.

Definition lit (s : string) : pystr :=
  (λ a, Ascii.N_of_ascii a) <$> String.list_ascii_of_string s.

(** The text ["\n"]. *)
Definition newline : pystr := [10%N].

(** [str.isspace] on one code point. *)
Definition isspace (c : N) : bool :=
  ((9 <=? c) && (c <=? 13) || (28 <=? c) && (c <=? 32)
   || (c =? 133) || (c =? 160) || (c =? 5760)
   || (8192 <=? c) && (c <=? 8202)
   || (c =? 8232) || (c =? 8233) || (c =? 8239) || (c =? 8287)
   || (c =? 12288))%N.

(** [str.rstrip()]: drop trailing white space. *)
Fixpoint rstrip (s : pystr) : pystr :=
  match s with
  | [] => []
  | c :: s' =>
      match rstrip s' with
      | [] => if isspace c then [] else [c]
      | r => c :: r
      end
  end.

(** ** StreamPiper: [_pipe_stream] *)

(** One [await reader.readline()]: bytes, or an exception with its text. *)
Inductive read :=
| Line (bs : list Byte.byte)
| ReadError (msg : pystr).

(** The results of the successive [readline] calls; once the list is
    exhausted the stream is at end-of-file and [readline] returns [b""]. *)
Definition reader := list read.

Inductive sink_op :=
| SWrite (text : pystr)
| SFlush.

Record piped := {
  console : list pystr;    (* lines given to print *)
  tee : list sink_op;      (* operations on tee_file *)
  reads : nat;             (* number of readline calls made *)
}.

Definition piped_cons (c : pystr) (t : list sink_op) (p : piped) : piped :=
  {| console := c :: console p; tee := t ++ tee p; reads := S (reads p) |}.

Section pipe.
(** [bytes.decode(errors="replace")]. *)
Variable decode : list Byte.byte → pystr.

Fixpoint _pipe_stream (rd : reader) (prefix : pystr) (tee_file : bool) : piped :=
  match rd with
  | [] => {| console := []; tee := []; reads := 1 |}
  | Line [] :: _ => {| console := []; tee := []; reads := 1 |}
  | Line line :: rd' =>
      let text := rstrip (decode line) in
      piped_cons (lit "[" ++ prefix ++ lit "] " ++ text)
        (if tee_file then [SWrite (text ++ newline); SFlush] else [])
        (_pipe_stream rd' prefix tee_file)
  | ReadError e :: _ =>
      {| console := [lit "[" ++ prefix ++ lit "] stream error: " ++ e];
         tee := []; reads := 1 |}
  end.
End pipe.

(** The texts written to the sink, in the order of the writes. *)
Definition writes (ops : list sink_op) : list pystr :=
  omap (λ o, match o with SWrite t => Some t | SFlush => None end) ops.

(** A decoder that is exact on ASCII and replaces every other byte by
    U+FFFD. *)
Definition decode_ascii (bs : list Byte.byte) : pystr :=
  (λ b, let n := Byte.to_N b in if (n <? 128)%N then n else 65533%N) <$> bs.

Definition bytes_of (s : string) : list Byte.byte :=
  (λ a, Ascii.byte_of_ascii a) <$> String.list_ascii_of_string s.

(** The bytes of the line [s], with its line feed. *)
Definition line_of (s : string) : list Byte.byte := bytes_of s ++ [Byte.x0a].

(** ** Processes, events and the world *)

Inductive role := Api | Ui.

#[global] Instance role_eq_dec : EqDecision role.
Proof. solve_decision. Defined.

Inductive exn :=
| ProcessLookupError
| TimeoutError
| URLError
| OSError (what : string)      (* any other exception *)
| SystemExit (code : Z).

#[global] Instance exn_eq_dec : EqDecision exn.
Proof. solve_decision. Defined.

(** What a child does, as far as the supervisor can tell. Delays are in
    milliseconds. *)
Record behaviour := {
  spawn_raises : option exn;    (* create_subprocess_exec raises *)
  child_pid : Z;
  self_exit : option (N * Z);   (* exits by itself: delay after spawn, status *)
  term_raises : option exn;     (* proc.terminate() raises *)
  term_exit : option (N * Z);   (* honours SIGTERM: delay, status *)
  kill_raises : option exn;     (* proc.kill() raises *)
}.

(** An [asyncio.subprocess.Process]. [os_exit] is when the operating-system
    process ends and with which status; [returncode] is what the handle has
    observed so far: it is updated only when the event loop runs. *)
Record process := {
  pid : Z;
  beh : behaviour;
  os_exit : option (Z * Z);
  returncode : option Z;
}.

Inductive task :=
| PipeOut (r : role)
| PipeErr (r : role)
| WaitTask (r : role)
| StopTask.

#[global] Instance task_eq_dec : EqDecision task.
Proof. solve_decision. Defined.

Inductive event :=
| Print (line : string)
| Mkdir (p : string)
| Exec (r : role) (cmd : list string) (cwd : string)
       (env : gmap string string) (log_file : string)
| StopSet                           (* handle_sig: stop_event.set() *)
| HttpGet (url : string)
| Sleep (d : Z)
| SigTerm (r : role)                (* proc.terminate() *)
| WaitFor (r : role) (timeout : Z)  (* wait_for(proc.wait(), timeout) *)
| SigKill (r : role)                (* proc.kill() *)
| Await (t : task)
| AwaitAny (ts : list task)         (* asyncio.wait(ts, FIRST_COMPLETED) *)
| Cancel (t : task)
| CancelIfPending (t : task).       (* if not t.done(): t.cancel() *)

(** One HTTP GET: a response status, or an exception. *)
Inductive poll :=
| Status (code : Z)
| Fails (e : exn).

Record environment := {
  windows : bool;                  (* platform.system().lower() == "windows" *)
  ROOT : string;
  is_dir : string → bool;
  exists_ : string → bool;
  os_environ : gmap string string;
  signals_supported : bool;        (* add_signal_handler is implemented *)
  stop_at : option Z;              (* when SIGINT or SIGTERM is delivered *)
  child : role → behaviour;
  respond : Z → poll;              (* the GET issued at time t *)
  poll_dur : Z → N;                (* how long that GET blocks *)
}.

Record world := {
  now : Z;
  stop_event : bool;
  api_proc : option process;
  tui_proc : option process;
  tasks : list task;               (* tasks created so far *)
  finished : list task;            (* wait and stop tasks that are done *)
  out : list event;
}.

Definition init : world :=
  {| now := 0; stop_event := false; api_proc := None; tui_proc := None;
     tasks := []; finished := []; out := [] |}.

Definition handle (r : role) (w : world) : option process :=
  match r with Api => api_proc w | Ui => tui_proc w end.

Definition set_handle (r : role) (p : process) (w : world) : world :=
  {| now := now w; stop_event := stop_event w;
     api_proc := if r is Api then Some p else api_proc w;
     tui_proc := if r is Ui then Some p else tui_proc w;
     tasks := tasks w; finished := finished w; out := out w |}.

Definition emit (e : event) (w : world) : world :=
  {| now := now w; stop_event := stop_event w; api_proc := api_proc w;
     tui_proc := tui_proc w; tasks := tasks w; finished := finished w;
     out := out w ++ [e] |}.

Definition create_tasks (ts : list task) (w : world) : world :=
  {| now := now w; stop_event := stop_event w; api_proc := api_proc w;
     tui_proc := tui_proc w; tasks := tasks w ++ ts; finished := finished w;
     out := out w |}.

(** A blocking call: the clock advances, the event loop does not run. *)
Definition block (d : Z) (w : world) : world :=
  {| now := now w + d; stop_event := stop_event w; api_proc := api_proc w;
     tui_proc := tui_proc w; tasks := tasks w; finished := finished w;
     out := out w |}.

(** The handle learns of the exit once the loop runs at or after it. *)
Definition observe (t : Z) (p : process) : process :=
  match returncode p, os_exit p with
  | None, Some (te, c) =>
      if te <=? t
      then {| pid := pid p; beh := beh p; os_exit := os_exit p; returncode := Some c |}
      else p
  | _, _ => p
  end.

Definition task_fired (stop : bool) (api tui : option process) (t : task) : bool :=
  match t with
  | WaitTask Api => bool_decide (is_Some (api ≫= returncode))
  | WaitTask Ui => bool_decide (is_Some (tui ≫= returncode))
  | StopTask => stop
  | _ => false
  end.

(** Whether the event loop, running until [t'], finds a signal to handle. *)
Definition delivered (E : environment) (t' : Z) (w : world) : bool :=
  signals_supported E && negb (stop_event w)
  && match stop_at E with Some ts => ts <=? t' | None => false end.

(** The coroutine is suspended and the event loop runs until time [t] (or
    for one iteration if [t] is in the past): a delivered signal sets the
    stop event, exits of children are observed, tasks whose condition
    holds complete. *)

Definition turn (E : environment) (t : Z) (w : world) : world :=
  let t' := Z.max (now w) t in
  let fire := delivered E t' w in
  let stop := stop_event w || fire in
  let api := observe t' <$> api_proc w in
  let tui := observe t' <$> tui_proc w in
  {| now := t'; stop_event := stop; api_proc := api; tui_proc := tui;
     tasks := tasks w;
     finished :=
       finished w
       ++ filter (λ k, (k ∉ finished w) ∧ (task_fired stop api tui k = true))
            (tasks w);
     out := out w ++ (if fire then [StopSet] else []) |}.

(** ** The monad of asynchronous code *)

Inductive outcome (A : Type) :=
| Return (a : A) (w : world)
| Raise (e : exn) (w : world)
| Blocked (w : world)           (* suspended for ever *)
| Fuel (w : world).             (* the model ran out of fuel *)
Arguments Return {A}. Arguments Raise {A}. Arguments Blocked {A}. Arguments Fuel {A}.

Definition M (A : Type) := world → outcome A.

Definition world_of {A} (o : outcome A) : world :=
  match o with Return _ w | Raise _ w | Blocked w | Fuel w => w end.

Definition ret {A} (a : A) : M A := λ w, Return a w.
Definition raise {A} (e : exn) : M A := λ w, Raise e w.
Definition bind {A B} (m : M A) (k : A → M B) : M B := λ w,
  match m w with
  | Return a w' => k a w'
  | Raise e w' => Raise e w'
  | Blocked w' => Blocked w'
  | Fuel w' => Fuel w'
  end.
Definition act (f : world → world) : M unit := λ w, Return tt (f w).
Definition get {A} (f : world → A) : M A := λ w, Return (f w) w.

#[global] Instance M_ret : MRet M := @ret.
#[global] Instance M_bind : MBind M := λ A B k m, bind m k.

(** [try: m except <the exceptions on which h is defined>: h e]. *)
Definition try_except {A} (m : M A) (h : exn → option (M A)) : M A := λ w,
  match m w with
  | Raise e w' => match h e with Some k => k w' | None => Raise e w' end
  | o => o
  end.

(** [try: m finally: f]. *)
Definition try_finally {A} (m : M A) (f : M unit) : M A := λ w,
  match m w with
  | Return a w' => bind f (λ _, ret a) w'
  | Raise e w' => bind f (λ _, raise e) w'
  | Blocked w' => Blocked w'
  | Fuel w' => Fuel w'
  end.

Definition print (s : string) : M unit := act (emit (Print s)).

(** ** ProcessHandle: [spawn_process] and [terminate_process] *)

(** [str(x)] for an optional value: [None] prints as ["None"]. *)
Definition str_opt {A} (f : A → string) (x : option A) : string :=
  match x with Some a => f a | None => "None" end.

(** [spawn_process], storing the new handle in the variable of role [r]
    ([api_proc] or [tui_proc]) together with its two pipe tasks. *)
Definition spawn_process (E : environment) (r : role) (cmd : list string)
    (cwd : string) (env : gmap string string) (log_prefix : string)
    (log_file : string) : M unit := λ w,
  let b := child E r in
  match spawn_raises b with
  | Some e => Raise e (turn E (now w) w)
  | None =>
      let p := {| pid := child_pid b; beh := b;
                  os_exit := (λ '(d, c), (now w + Z.of_N d, c)) <$> self_exit b;
                  returncode := None |} in
      Return tt
        (create_tasks [PipeOut r; PipeErr r]
           (turn E (now w) (set_handle r p (emit (Exec r cmd cwd env log_file) w))))
  end.

(** [proc.terminate()]: the child, if it honours SIGTERM, ends after its
    delay unless it ends sooner anyway. *)
Definition sigterm (t : Z) (p : process) : process :=
  match term_exit (beh p) with
  | None => p
  | Some (d, c) =>
      let te := t + Z.of_N d in
      match os_exit p with
      | Some (te0, _) =>
          if te0 <=? te then p
          else {| pid := pid p; beh := beh p; os_exit := Some (te, c);
                  returncode := returncode p |}
      | None => {| pid := pid p; beh := beh p; os_exit := Some (te, c);
                   returncode := returncode p |}
      end
  end.

(** [proc.kill()]: the child ends now with status -9 unless it has ended. *)
Definition sigkill (t : Z) (p : process) : process :=
  match os_exit p with
  | Some (te0, _) =>
      if te0 <=? t then p
      else {| pid := pid p; beh := beh p; os_exit := Some (t, -9);
              returncode := returncode p |}
  | None => {| pid := pid p; beh := beh p; os_exit := Some (t, -9);
               returncode := returncode p |}
  end.

Definition exit_time (r : role) (w : world) : option Z :=
  p ← handle r w; fst <$> os_exit p.

(** [await asyncio.wait_for(proc.wait(), timeout=timeout)]. With a timeout
    that is not positive [wait_for] cancels the wait at once. *)
Definition wait_for_wait (E : environment) (r : role) (timeout : Z) : M unit := λ w,
  let w := emit (WaitFor r timeout) w in
  if timeout <=? 0 then Raise TimeoutError (turn E (now w) w)
  else
    match exit_time r w with
    | Some te =>
        if te <? now w + timeout then Return tt (turn E te w)
        else Raise TimeoutError (turn E (now w + timeout) w)
    | None => Raise TimeoutError (turn E (now w + timeout) w)
    end.

Definition proc_terminate (r : role) : M unit := λ w,
  match handle r w with
  | None => Return tt w
  | Some p =>
      match term_raises (beh p) with
      | Some e => Raise e w
      | None => Return tt (set_handle r (sigterm (now w) p) (emit (SigTerm r) w))
      end
  end.

Definition proc_kill (r : role) : M unit := λ w,
  match handle r w with
  | None => Return tt w
  | Some p =>
      match kill_raises (beh p) with
      | Some e => Raise e w
      | None => Return tt (set_handle r (sigkill (now w) p) (emit (SigKill r) w))
      end
  end.

(** [terminate_process(proc, name, grace)], where [proc] is the value of
    the variable of role [r]. *)
Definition terminate_process (E : environment) (proc : role) (name : string)
    (grace : Z) : M unit := λ w,
  match handle proc w with
  | None => Return tt w
  | Some p =>
      if returncode p is Some _ then Return tt w
      else
        (returned ←
           try_except
             (print ("[" +:+ name +:+ "] terminating…");;
              proc_terminate proc;;
              ret false)
             (λ e, if e is ProcessLookupError then Some (ret true) else None);
         if returned : bool then ret tt
         else
           try_except
             (wait_for_wait E proc grace;;
              rc ← get (λ w, handle proc w ≫= returncode);
              print ("[" +:+ name +:+ "] exited with " +:+ str_opt pretty rc))
             (λ e, if e is TimeoutError
                   then Some (print ("[" +:+ name +:+ "] kill (timeout)");;
                              proc_kill proc)
                   else None))
          w
  end.

(** ** HealthProbe: [wait_for_http] *)

(** The [while loop.time() < end] loop. [urlopen] is a blocking call. *)
Fixpoint wait_for_http_loop (E : environment) (fuel : nat) (url : string)
    (end_ : Z) (interval : Z) : M bool := λ w,
  match fuel with
  | O => Fuel w
  | S fuel' =>
      if now w <? end_ then
        (healthy ←
           try_except
             (λ w, let w1 := block (Z.of_N (poll_dur E (now w))) (emit (HttpGet url) w) in
                   match respond E (now w) with
                   | Status code => Return ((200 <=? code) && (code <? 300)) w1
                   | Fails e => Raise e w1
                   end)
             (λ e, if e is URLError then Some (ret false) else None);
         if healthy : bool then ret true
         else
           (λ w, Return tt (turn E (now w + interval) (emit (Sleep interval) w)));;
           wait_for_http_loop E fuel' url end_ interval)
          w
      else Return false w
  end.

Definition wait_for_http (E : environment) (fuel : nat) (url : string)
    (timeout : Z) (interval : Z) : M bool := λ w,
  wait_for_http_loop E fuel url (now w + timeout) interval w.

(** ** Supervisor: [main] *)

Record Args := {
  no_api : bool;
  no_ui : bool;
  api_host : string;
  api_port : string;
  refresh_seconds : option string;
}.

Definition joinpath (E : environment) (p s : string) : string :=
  p +:+ (if windows E then "\" else "/") +:+ s.

Definition DB_DIR (E : environment) : string := joinpath E (ROOT E) "db_manager".
Definition TUI_DIR (E : environment) : string := joinpath E (ROOT E) "textual".

Definition venv_python (E : environment) (venv_dir : string) : string :=
  if windows E then joinpath E (joinpath E venv_dir "Scripts") "python.exe"
  else joinpath E (joinpath E venv_dir "bin") "python".

Fixpoint first_existing (E : environment) (paths : list string) : option string :=
  match paths with
  | [] => None
  | p :: paths' =>
      if is_dir E p then
        let py := venv_python E p in
        if exists_ E py then Some py else first_existing E paths'
      else first_existing E paths'
  end.

Definition ensure_logs_dir (E : environment) : M string :=
  let logs := joinpath E (ROOT E) "logs" in
  act (emit (Mkdir logs));; ret logs.

(** When the condition a task waits for holds, if it ever does. *)
Definition fire_time (E : environment) (w : world) (t : task) : option Z :=
  match t with
  | WaitTask r =>
      p ← handle r w;
      if returncode p is Some _ then Some (now w) else fst <$> os_exit p
  | StopTask =>
      if stop_event w then Some (now w)
      else if signals_supported E then stop_at E else None
  | _ => None
  end.

Definition min_time (ts : list Z) : option Z :=
  match ts with
  | [] => None
  | t :: ts' => Some (foldr Z.min t ts')
  end.

(** [await t] for a wait task or the stop task; awaiting [None] is a
    [TypeError]. *)
Definition await_task (E : environment) (t : task) : M unit := λ w,
  if bool_decide (t ∈ tasks w) then
    let w := emit (Await t) w in
    match fire_time E w t with
    | Some tf => Return tt (turn E tf w)
    | None => Blocked w
    end
  else Raise (OSError "TypeError") w.

(** [done, pending = await asyncio.wait(ts, return_when=FIRST_COMPLETED)],
    giving [done]. *)
Definition asyncio_wait (E : environment) (ts : list task) : M (list task) := λ w,
  let w := emit (AwaitAny ts) w in
  match min_time (omap (fire_time E w) ts) with
  | Some tf =>
      let w' := turn E tf w in
      Return (filter (λ t, t ∈ finished w') ts) w'
  | None => Blocked w
  end.

(** [make_task_or_none(proc.wait() if (proc and not disabled) else None)]. *)
Definition make_wait_task (r : role) (disabled : bool) : M unit := λ w,
  if bool_decide (is_Some (handle r w)) && negb disabled
  then Return tt (create_tasks [WaitTask r] w)
  else Return tt w.

Definition active_tasks (w : world) : list task :=
  filter (λ t, (t ∈ tasks w) ∧ (t ∉ finished w)) [WaitTask Api; WaitTask Ui; StopTask].

(** The [while True] loop of the branch taken when both roles or neither
    are enabled. *)
Fixpoint wait_loop (E : environment) (fuel : nat) : M unit := λ w,
  match fuel with
  | O => Fuel w
  | S fuel' =>
      (ts ← get active_tasks;
       if ts is [] then ret tt
       else
         done ← asyncio_wait E ts;
         if bool_decide (StopTask ∈ done) then ret tt
         else if bool_decide (WaitTask Api ∈ done) || bool_decide (WaitTask Ui ∈ done)
         then ret tt
         else wait_loop E fuel')
        w
  end.

Definition api_url (args : Args) : string :=
  "http://" +:+ api_host args +:+ ":" +:+ api_port args.

(** The environment given to the UI. *)
Definition tui_env (E : environment) (args : Args) : gmap string string :=
  let tui_env := <["HOMELAB_API_URL" := api_url args]> (os_environ E) in
  match refresh_seconds args with
  | Some s => <["HOMELAB_REFRESH_SECONDS" := s]> tui_env
  | None => tui_env
  end.

(** [# Start API]: spawn it and probe it. *)
Definition start_api (E : environment) (fuel : nat) (args : Args)
    (logs_dir : string) (db_python : option string) : M unit :=
  if negb (no_api args) then
    let api_cmd :=
      [str_opt id db_python; "-m"; "uvicorn"; "run:app";
       "--host"; api_host args; "--port"; api_port args; "--reload"] in
    spawn_process E Api api_cmd (DB_DIR E) (os_environ E) "api"
      (joinpath E logs_dir "api.log");;
    p ← get (handle Api);
    print ("[api] started pid=" +:+ str_opt (λ p, pretty (pid p)) p
           +:+ " at " +:+ api_url args);;
    healthy ← wait_for_http E fuel (api_url args +:+ "/") 20000 500;
    if healthy : bool then ret tt
    else print "[api] did not become healthy in time; continuing anyway…"
  else ret tt.

(** [# Start TUI]. *)
Definition start_ui (E : environment) (args : Args)
    (logs_dir : string) (tui_python : option string) : M unit :=
  if negb (no_ui args) then
    let tui_cmd := [str_opt id tui_python; "app.py"] in
    spawn_process E Ui tui_cmd (TUI_DIR E) (tui_env E args) "tui"
      (joinpath E logs_dir "tui.log");;
    p ← get (handle Ui);
    print ("[tui] started pid=" +:+ str_opt (λ p, pretty (pid p)) p
           +:+ " (HOMELAB_API_URL="
           +:+ str_opt id (tui_env E args !! "HOMELAB_API_URL") +:+ ")")
  else ret tt.

(** The body of the [try] up to the wait loop: start the API, probe it,
    start the UI. *)
Definition startup (E : environment) (fuel : nat) (args : Args)
    (logs_dir : string) (db_python tui_python : option string) : M unit :=
  start_api E fuel args logs_dir db_python;;
  start_ui E args logs_dir tui_python.

(** The wait of the Running state. *)
Definition running (E : environment) (fuel : nat) (args : Args) : M unit :=
  make_wait_task Api (no_api args);;
  make_wait_task Ui (no_ui args);;
  act (create_tasks [StopTask]);;
  if no_api args && negb (no_ui args) then await_task E (WaitTask Ui)
  else if negb (no_api args) && no_ui args then await_task E (WaitTask Api)
  else wait_loop E fuel.

(** [proc and proc.returncode is None]. *)
Definition still_running (p : option process) : bool :=
  match p with
  | Some p => if returncode p is None then true else false
  | None => false
  end.

Definition cancel_pipes : M unit :=
  act (λ w, foldl (λ w t, if bool_decide (t ∈ tasks w)
                          then emit (CancelIfPending t) w else w)
              w [PipeOut Api; PipeErr Api; PipeOut Ui; PipeErr Ui]).

(** What the second loop of the [finally] block iterates over. Its tuple is
    built by a generator expression that calls [locals()] in its own body:
    the scope consulted is the generator's, which holds the iterator it was
    given (under the name [.0]) and the loop variable [n], and none of the
    variables of [main]. *)
Inductive pyval :=
| VStr (s : string)
| VIter
| VTask (t : task).

Definition genexpr_locals (n : string) : gmap string pyval :=
  {[ ".0" := VIter; "n" := VStr n ]}.

Definition truthy (v : pyval) : bool :=
  match v with
  | VStr s => negb (String.eqb s "")
  | VIter | VTask _ => true
  end.

(** [tuple(filter(None, (locals().get(n, None) for n in [...])))]. *)
Definition named_tasks : list pyval :=
  List.filter truthy
    (omap (λ n, genexpr_locals n !! n) ["stop_task"; "api_wait_task"; "tui_wait_task"]).

(** [if t and not t.done(): t.cancel()] under [except Exception: pass]: a
    value that is not a task has no [done]. *)
Definition cancel_waits : M unit :=
  act (λ w, foldl (λ w v,
                     match v with
                     | VTask t =>
                         if bool_decide (t ∈ tasks w) && bool_decide (t ∉ finished w)
                         then emit (Cancel t) w else w
                     | _ => w
                     end)
              w named_tasks).

(** The [finally] block. *)
Definition shutdown (E : environment) : M unit :=
  tui ← get (handle Ui);
  (if still_running tui then terminate_process E Ui "tui" 5000 else ret tt);;
  api ← get (handle Api);
  (if still_running api then terminate_process E Api "api" 5000 else ret tt);;
  cancel_pipes;;
  cancel_waits;;
  print "All done.".

Definition main (E : environment) (fuel : nat) (args : Args) : M unit :=
  logs_dir ← ensure_logs_dir E;
  let db_python :=
    first_existing E [joinpath E (DB_DIR E) "db-venv"; joinpath E (DB_DIR E) "venv"] in
  let tui_python := first_existing E [joinpath E (TUI_DIR E) "textual-venv"] in
  if negb (no_api args) && negb (bool_decide (is_Some db_python)) then
    print "ERROR: Could not find a Python in db_manager venv (db-venv/ or venv/).";;
    raise (SystemExit 1)
  else if negb (no_ui args) && negb (bool_decide (is_Some tui_python)) then
    print "ERROR: Could not find a Python in textual venv (textual-venv/).";;
    raise (SystemExit 1)
  else
    try_finally
      (startup E fuel args logs_dir db_python tui_python;;
       running E fuel args)
      (shutdown E).

(** The exit status of the interpreter running [asyncio.run(main())]. *)
Inductive exit := Exit (code : Z) | NoExit.

Definition exit_status {A} (o : outcome A) : exit :=
  match o with
  | Return _ _ => Exit 0
  | Raise (SystemExit c) _ => Exit c
  | Raise _ _ => Exit 1
  | Blocked _ | Fuel _ => NoExit
  end.

(** *** Sample environments *)

Definition quiet : behaviour :=
  {| spawn_raises := None; child_pid := 4242; self_exit := None;
     term_raises := None; term_exit := Some (100%N, -15);
     kill_raises := None |}.

Definition stubborn : behaviour :=
  {| spawn_raises := None; child_pid := 4343; self_exit := None;
     term_raises := None; term_exit := None; kill_raises := None |}.

Definition crashed : behaviour :=
  {| spawn_raises := None; child_pid := 4444; self_exit := Some (0%N, 1);
     term_raises := None; term_exit := None; kill_raises := None |}.

Definition reaped : behaviour :=
  {| spawn_raises := None; child_pid := 4545; self_exit := None;
     term_raises := Some ProcessLookupError; term_exit := None;
     kill_raises := None |}.

(** An endpoint that starts answering 200 at time [t0]. *)
Definition healthy_from (t0 : Z) (t : Z) : poll :=
  if t <? t0 then Fails URLError else Status 200.

Definition mkenv (api ui : behaviour) (stop : option Z) (resp : Z → poll) : environment :=
  {| windows := false; ROOT := "/srv/dashboard";
     is_dir := λ _, true; exists_ := λ _, true;
     os_environ := {[ "PATH" := "/usr/bin" ]};
     signals_supported := true; stop_at := stop;
     child := λ r, if r is Api then api else ui;
     respond := resp;
     poll_dur := λ _, 0%N |}.

Definition E0 : environment := mkenv quiet stubborn (Some 60000) (healthy_from 1500).

(** A machine on which no virtual environment has been created. *)
Definition E_bare : environment :=
  {| windows := false; ROOT := "/srv/dashboard";
     is_dir := λ _, false; exists_ := λ _, false;
     os_environ := ∅; signals_supported := true; stop_at := None;
     child := λ _, quiet; respond := healthy_from 0; poll_dur := λ _, 0%N |}.

Definition args_none : Args :=
  {| no_api := true; no_ui := true; api_host := "127.0.0.1";
     api_port := "8000"; refresh_seconds := None |}.

Definition args_ui_only : Args :=
  {| no_api := true; no_ui := false; api_host := "10.0.0.7";
     api_port := "9000"; refresh_seconds := Some "2" |}.

(** A child on which neither signal can be sent. *)
Definition untouchable : behaviour :=
  {| spawn_raises := None; child_pid := 4646; self_exit := None;
     term_raises := Some (OSError "PermissionError"); term_exit := None;
     kill_raises := Some (OSError "PermissionError") |}.

(** A child that ignores SIGTERM and is gone when the kill is sent. *)
Definition vanishing : behaviour :=
  {| spawn_raises := None; child_pid := 4747; self_exit := None;
     term_raises := None; term_exit := None;
     kill_raises := Some ProcessLookupError |}.

Definition E_stop_early : environment := mkenv quiet stubborn (Some 10) (healthy_from 0).
Definition E_untouchable : environment := mkenv quiet untouchable None (healthy_from 0).
Definition E_vanishing : environment := mkenv quiet vanishing None (healthy_from 0).

(** An endpoint that refuses connections for a second and then lets the
    read time out. *)
Definition E_timeout : environment :=
  mkenv quiet quiet None (λ t, if t <? 1000 then Fails URLError else Fails TimeoutError).

(** A child that cannot be spawned. *)
Definition unspawnable : behaviour :=
  {| spawn_raises := Some (OSError "PermissionError"); child_pid := 0;
     self_exit := None; term_raises := None; term_exit := None;
     kill_raises := None |}.

Definition E_unspawnable : environment := mkenv unspawnable quiet None (healthy_from 0).

(** A UI that the user quits after a minute, with status 0. *)
Definition quitting : behaviour :=
  {| spawn_raises := None; child_pid := 4848; self_exit := Some (60000%N, 0);
     term_raises := None; term_exit := None; kill_raises := None |}.

Definition E_quitting : environment := mkenv quiet quitting (Some 10) (healthy_from 0).





(** An API that exits by itself after 30 s, with status 3. *)
Definition leaving : behaviour :=
  {| spawn_raises := None; child_pid := 4949; self_exit := Some (30000%N, 3);
     term_raises := None; term_exit := None; kill_raises := None |}.

Definition E_api_exits : environment := mkenv leaving quiet None (healthy_from 0).

Definition E_crashed : environment := mkenv quiet crashed None (healthy_from 0).
Definition E_reaped : environment := mkenv quiet reaped None (healthy_from 0).

Definition crashed_proc : process :=
  {| pid := 4444; beh := crashed; os_exit := Some (0, 1); returncode := Some 1 |}.

Definition reaped_proc : process :=
  {| pid := 4545; beh := reaped; os_exit := None; returncode := None |}.

Definition untouchable_proc : process :=
  {| pid := 4646; beh := untouchable; os_exit := None; returncode := None |}.

Definition vanishing_proc : process :=
  {| pid := 4747; beh := vanishing; os_exit := None; returncode := None |}.

(** The world just after both children have been spawned. *)
Definition both_spawned (E : environment) : world :=
  world_of (spawn_process E Ui ["python"; "app.py"] "/srv" ∅ "tui" "tui.log"
              (world_of (spawn_process E Api ["python"] "/srv" ∅ "api" "api.log" init))).

(** The handle of a freshly spawned [quiet] child. *)
Definition quiet_proc : process :=
  {| pid := 4242; beh := quiet; os_exit := None; returncode := None |}.

(** The world just after [spawn_process] has started the child of role [r]. *)
Definition spawned (E : environment) (r : role) : world :=
  world_of (spawn_process E r ["python"] "/srv" ∅ "proc" "proc.log" init).

Definition args0 : Args :=
  {| no_api := false; no_ui := false; api_host := "127.0.0.1";
     api_port := "8000"; refresh_seconds := None |}.

(** *** Vocabulary for the properties *)

Definition is_exec (e : event) : bool :=
  match e with Exec _ _ _ _ _ => true | _ => false end.

Definition is_wait (e : event) : bool :=
  match e with Await _ | AwaitAny _ => true | _ => false end.

(** An action of [terminate_process] on the process of role [r]. *)
Definition term_action (r : role) (e : event) : bool :=
  match e with
  | SigTerm r' | WaitFor r' _ | SigKill r' => bool_decide (r' = r)
  | _ => false
  end.

(** [e], if it starts the UI, gives it the environment [env]. *)
Definition ui_env_is (env : gmap string string) (e : event) : bool :=
  match e with
  | Exec Ui _ _ env' _ => bool_decide (env' = env)
  | _ => true
  end.

(** [m], run in any world, appends to the events a list of events that all
    satisfy [P], whatever its outcome. *)
Definition emits {A} (P : event → bool) (m : M A) : Prop :=
  ∀ w, ∃ l, out (world_of (m w)) = out w ++ l ∧ forallb P l = true.

(** A list of events that falls into consecutive phases, the events of
    each phase satisfying the predicate of that phase. *)
Fixpoint phases (Ps : list (event → bool)) (l : list event) : Prop :=
  match Ps with
  | [] => l = []
  | P :: Ps' => ∃ l1 l2, l = l1 ++ l2 ∧ forallb P l1 = true ∧ phases Ps' l2
  end.

Definition traces {A} (Ps : list (event → bool)) (m : M A) : Prop :=
  ∀ w, ∃ l, out (world_of (m w)) = out w ++ l ∧ phases Ps l.

(** [m], run in a world that satisfies [P], returns, in a world and with a
    value that satisfy [Q]. *)
Definition returns {A} (P : world → Prop) (m : M A) (Q : A → world → Prop) : Prop :=
  ∀ w, P w → ∃ a w', m w = Return a w' ∧ Q a w'.

(** [e] spawns the child of role [r]. *)
Definition starts (r : role) (e : event) : bool :=
  match e with Exec r' _ _ _ _ => bool_decide (r' = r) | _ => false end.

(** [e] belongs to the health probe. *)
Definition is_probe (e : event) : bool :=
  match e with HttpGet _ | Sleep _ => true | _ => false end.

(** The lines that [_pipe_stream] gets to see: those read before the first
    empty read (end-of-file) or failed read. *)
Fixpoint leading_lines (rd : reader) : list (list Byte.byte) :=
  match rd with
  | Line (b :: l) :: rd' => (b :: l) :: leading_lines rd'
  | _ => []
  end.

(** The message of the read that failed right after the leading lines. *)
Fixpoint read_failure (rd : reader) : option pystr :=
  match rd with
  | Line (_ :: _) :: rd' => read_failure rd'
  | ReadError msg :: _ => Some msg
  | _ => None
  end.

(** The number of spawns of the child of role [r] among the events [l]. *)
Definition spawn_count (r : role) (l : list event) : nat :=
  length (List.filter (starts r) l).

(** [m], whatever its outcome, spawns the child of role [r] at most [n]
    times. *)
Definition spawns_at_most {A} (r : role) (n : nat) (m : M A) : Prop :=
  ∀ w, ∃ l, out (world_of (m w)) = out w ++ l ∧ (spawn_count r l ≤ n)%nat.

Definition is_pipe (t : task) : bool :=
  match t with PipeOut _ | PipeErr _ => true | _ => false end.

(** A world of the start-up: the handles of [w] are those of children of
    [E], a child that exits by itself has its exit ahead or behind, and only
    pipe tasks exist. *)
Definition starting (E : environment) (w : world) : Prop :=
  (∀ r p, handle r w = Some p → beh p = child E r)
  ∧ (∀ t, t ∈ tasks w ∨ t ∈ finished w → is_pipe t = true)
  ∧ (∀ r p, handle r w = Some p → is_Some (self_exit (child E r)) → is_Some (os_exit p)).

(** The handles of [w] are those of children of [E]. *)
Definition children_of (E : environment) (w : world) : Prop :=
  ∀ r p, handle r w = Some p → beh p = child E r.

(** Sending a signal to a child of [E] raises nothing, except that
    [proc.terminate()] may raise [ProcessLookupError]. *)
Definition signals_go_through (E : environment) : Prop :=
  ∀ r : role,
    ((term_raises (child E r) = None
      ∨ term_raises (child E r) = Some ProcessLookupError)
     ∧ kill_raises (child E r) = None).

(** ** The UI's settings ([textual/config.py])

    [os.getenv(key, default)] on the environment the process was given. *)
Definition getenv (env : gmap string string) (key default_ : string) : string :=
  match env !! key with
  | Some v => v
  | None => default_
  end.

(** [Settings.api_url], and the text that [Settings.refresh_seconds] hands
    to [float]. *)
Definition settings_api_url (env : gmap string string) : string :=
  getenv env "HOMELAB_API_URL" "http://127.0.0.1:8000".

Definition settings_refresh_text (env : gmap string string) : string :=
  getenv env "HOMELAB_REFRESH_SECONDS" "5".

Definition args_default : Args :=
  {| no_api := false; no_ui := false; api_host := "127.0.0.1";
     api_port := "8000"; refresh_seconds := None |}.

(** The number of GET requests among the events [l]. *)
Definition n_gets (l : list event) : nat :=
  length (List.filter (λ e, match e with HttpGet _ => true | _ => false end) l).

(** A poll after which the probe goes on: a status outside 2xx, or
    [URLError]. *)
Definition unhealthy (p : poll) : bool :=
  match p with
  | Status code => negb ((200 <=? code) && (code <? 300))
  | Fails URLError => true
  | Fails _ => false
  end.

(** The events of each stretch of a run of [main]. *)
Definition api_start_ev (e : event) : bool :=
  match e with
  | Mkdir _ | Print _ | StopSet | HttpGet _ | Sleep _ | Exec Api _ _ _ _ => true
  | _ => false
  end.

Definition ui_start_ev (E : environment) (args : Args) (e : event) : bool :=
  match e with
  | Print _ | StopSet => true
  | Exec Ui _ _ env _ => bool_decide (env = tui_env E args)
  | _ => false
  end.

Definition running_ev (e : event) : bool :=
  match e with
  | Await _ | AwaitAny _ | StopSet => true
  | _ => false
  end.

Definition terminate_ev (r : role) (e : event) : bool :=
  match e with
  | Print _ | StopSet => true
  | SigTerm r' | WaitFor r' _ | SigKill r' => bool_decide (r' = r)
  | _ => false
  end.

Definition final_ev (e : event) : bool :=
  match e with
  | CancelIfPending _ => true
  | _ => terminate_ev Api e
  end.

Definition main_phases (E : environment) (args : Args) : list (event → bool) :=
  [api_start_ev; ui_start_ev E args; running_ev; terminate_ev Ui; final_ev].

(** * Properties *)

(** ** StreamPiper *)

Section pipe_facts.
Variable decode : list Byte.byte → pystr.

(** What one line becomes in the sink. *)
Definition sunk (line : list Byte.byte) : pystr := rstrip (decode line) ++ newline.

Lemma pipe_line (b : Byte.byte) (l : list Byte.byte) (rd : reader)
    (prefix : pystr) (t : bool) :
  _pipe_stream decode (Line (b :: l) :: rd) prefix t
  = piped_cons (lit "[" ++ prefix ++ lit "] " ++ rstrip (decode (b :: l)))
      (if t then [SWrite (sunk (b :: l)); SFlush] else [])
      (_pipe_stream decode rd prefix t).
Proof. reflexivity. Qed.

Lemma pipe_lines_tee (lines : list (list Byte.byte)) (prefix : pystr) :
  Forall (λ l, l ≠ []) lines →
  tee (_pipe_stream decode (Line <$> lines) prefix true)
  = lines ≫= λ l, [SWrite (sunk l); SFlush].
Proof.
  induction 1 as [|l lines Hl _ IH]; [done|].
  destruct l as [|b l]; [done|].
  rewrite fmap_cons, pipe_line. unfold piped_cons; cbn [tee]. by rewrite IH.
Qed.

Lemma pipe_lines_reads (lines : list (list Byte.byte)) (prefix : pystr) (t : bool) :
  Forall (λ l, l ≠ []) lines →
  reads (_pipe_stream decode (Line <$> lines) prefix t) = S (length lines).
Proof.
  induction 1 as [|l lines Hl _ IH]; [done|].
  destruct l as [|b l]; [done|].
  rewrite fmap_cons, pipe_line. unfold piped_cons; cbn [reads length]. by rewrite IH.
Qed.

Lemma writes_bind (lines : list (list Byte.byte)) :
  writes (lines ≫= λ l, [SWrite (sunk l); SFlush]) = sunk <$> lines.
Proof.
  induction lines as [|l lines IH]; [done|].
  rewrite fmap_cons, <- IH. reflexivity.
Qed.
End pipe_facts.

(** C8. For a stream that delivers the lines [lines] (each, as [readline]
    gives it, not empty) and then end-of-file, [_pipe_stream] writes to the
    sink one text per line, the k-th write being the k-th line (decoded,
    right-stripped, newline-terminated), so exactly once each and in source
    order; it stops at the read that finds end-of-file. The stream a, b, c
    gives exactly the three writes a, b, c. *)
Theorem C8_pipe_writes_each_line_once_in_order
    (decode : list Byte.byte → pystr) (lines : list (list Byte.byte)) (prefix : pystr) :
  Forall (λ l, l ≠ []) lines →
  let p := _pipe_stream decode (Line <$> lines) prefix true in
  writes (tee p) = sunk decode <$> lines
  ∧ (∀ k : nat, writes (tee p) !! k = sunk decode <$> (lines !! k))
  ∧ length (writes (tee p)) = length lines
  ∧ reads p = S (length lines)
  ∧ (lines = [line_of "a"; line_of "b"; line_of "c"] →
     (∀ l, l ∈ lines → decode l = decode_ascii l) →
     writes (tee p) = [lit "a" ++ newline; lit "b" ++ newline; lit "c" ++ newline]).
Proof.
  intros Hne p.
  assert (Hw : writes (tee p) = sunk decode <$> lines).
  { unfold p. rewrite pipe_lines_tee by done. apply writes_bind. }
  split_and!.
  - done.
  - intros k. by rewrite Hw, list_lookup_fmap.
  - by rewrite Hw, length_fmap.
  - by apply pipe_lines_reads.
  - intros -> Hd. rewrite Hw. unfold sunk. simpl.
    rewrite !Hd by set_solver. reflexivity.
Qed.

Lemma C8_witness :
  let lines := [line_of "a"; line_of "b"; line_of "c"] in
  writes (tee (_pipe_stream decode_ascii (Line <$> lines) (lit "api:out") true))
  = [lit "a" ++ newline; lit "b" ++ newline; lit "c" ++ newline].
Proof.
  intros lines.
  refine (proj2 (proj2 (proj2 (proj2
    (C8_pipe_writes_each_line_once_in_order decode_ascii lines (lit "api:out") _)))) _ _).
  - repeat constructor; discriminate.
  - reflexivity.
  - reflexivity.
Defined.

(** ** ProcessHandle *)

Lemma handle_emit (r : role) (e : event) (w : world) : handle r (emit e w) = handle r w.
Proof. by destruct r. Qed.

Lemma handle_set_handle (r : role) (p : process) (w : world) :
  handle r (set_handle r p w) = Some p.
Proof. by destruct r. Qed.

Lemma handle_set_handle_ne (r r' : role) (p : process) (w : world) :
  r ≠ r' → handle r' (set_handle r p w) = handle r' w.
Proof. by destruct r, r'. Qed.

Lemma handle_turn (E : environment) (t : Z) (r : role) (w : world) :
  handle r (turn E t w) = observe (Z.max (now w) t) <$> handle r w.
Proof. by destruct r. Qed.

Lemma beh_observe (t : Z) (p : process) : beh (observe t p) = beh p.
Proof.
  unfold observe. destruct (returncode p), (os_exit p) as [[te c]|]; try done.
  by destruct (te <=? t).
Qed.

Lemma beh_sigterm (t : Z) (p : process) : beh (sigterm t p) = beh p.
Proof.
  unfold sigterm. destruct (term_exit (beh p)) as [[d c]|]; [|done].
  destruct (os_exit p) as [[te0 c0]|]; [|done]. by destruct (te0 <=? _).
Qed.

Lemma returncode_sigterm (t : Z) (p : process) : returncode (sigterm t p) = returncode p.
Proof.
  unfold sigterm. destruct (term_exit (beh p)) as [[d c]|]; [|done].
  destruct (os_exit p) as [[te0 c0]|]; [|done]. by destruct (te0 <=? _).
Qed.

(** The first [try] of [terminate_process] when [proc.terminate()] raises
    [ProcessLookupError]. *)
Lemma terminate_lookup_error (E : environment) (r : role) (name : string)
    (grace : Z) (w : world) (p : process) :
  handle r w = Some p → returncode p = None →
  term_raises (beh p) = Some ProcessLookupError →
  terminate_process E r name grace w
  = Return tt (emit (Print ("[" +:+ name +:+ "] terminating…")) w).
Proof.
  intros Hh Hrc Ht. unfold terminate_process. rewrite Hh, Hrc.
  unfold mbind, M_bind, bind, try_except, print, act, proc_terminate.
  rewrite handle_emit, Hh, Ht. reflexivity.
Qed.

Lemma terminate_exited (E : environment) (r : role) (name : string)
    (grace : Z) (w : world) (p : process) (c : Z) :
  handle r w = Some p → returncode p = Some c →
  terminate_process E r name grace w = Return tt w.
Proof. intros Hh Hrc. unfold terminate_process. by rewrite Hh, Hrc. Qed.

Lemma terminate_running (E : environment) (r : role) (name : string)
    (grace : Z) (w : world) (p : process) :
  handle r w = Some p → returncode p = None → term_raises (beh p) = None →
  terminate_process E r name grace w
  = try_except
      (wait_for_wait E r grace;;
       rc ← get (λ w, handle r w ≫= returncode);
       print ("[" +:+ name +:+ "] exited with " +:+ str_opt pretty rc))
      (λ e, if e is TimeoutError
            then Some (print ("[" +:+ name +:+ "] kill (timeout)");; proc_kill r)
            else None)
      (set_handle r (sigterm (now w) p)
         (emit (SigTerm r) (emit (Print ("[" +:+ name +:+ "] terminating…")) w))).
Proof.
  intros Hh Hrc Ht. unfold terminate_process. rewrite Hh, Hrc.
  unfold mbind at 1. unfold M_bind, bind at 1.
  unfold try_except at 1. unfold mbind, M_bind, bind, print, act, proc_terminate.
  rewrite handle_emit, Hh, Ht. reflexivity.
Qed.


Lemma observe_running (t : Z) (p : process) :
  returncode p = None →
  (∀ te c, os_exit p = Some (te, c) → t < te) →
  returncode (observe t p) = None.
Proof.
  intros Hrc Hlate. unfold observe. rewrite Hrc.
  destruct (os_exit p) as [[te c]|]; [|done].
  specialize (Hlate te c eq_refl). destruct (Z.leb_spec te t); [lia|done].
Qed.

Lemma observe_exited (t te c : Z) (p : process) :
  returncode p = None → os_exit p = Some (te, c) → te ≤ t →
  returncode (observe t p) = Some c.
Proof.
  intros Hrc Hos Hle. unfold observe. rewrite Hrc, Hos.
  destruct (Z.leb_spec te t); [done|lia].
Qed.

Lemma os_exit_observe (t : Z) (p : process) : os_exit (observe t p) = os_exit p.
Proof.
  unfold observe. destruct (returncode p); [done|].
  destruct (os_exit p) as [[te c]|] eqn:Hos; [|done].
  by destruct (te <=? t).
Qed.

Lemma returncode_sigkill (t : Z) (p : process) : returncode (sigkill t p) = returncode p.
Proof.
  unfold sigkill. destruct (os_exit p) as [[te0 c0]|]; [|done]. by destruct (te0 <=? t).
Qed.

Lemma sigkill_dead (t : Z) (p : process) :
  ∃ te c, os_exit (sigkill t p) = Some (te, c) ∧ te ≤ t.
Proof.
  unfold sigkill. destruct (os_exit p) as [[te0 c0]|] eqn:Hos.
  - destruct (Z.leb_spec te0 t).
    + exists te0, c0. by rewrite Hos.
    + exists t, (-9). split; [done|lia].
  - exists t, (-9). split; [done|lia].
Qed.

(** C3 (amended). On a process that is still running, with signals that
    go through and a grace period ≥ 0, [terminate_process] returns, having
    sent the graceful request and waited up to the grace period, and what
    follows is decided by when the child ends after the request. If it ends
    before the grace period (which is then positive) is over, the call
    returns at that time, the exit status is observed and logged, and no
    kill is sent. If it does not (the grace period is 0, or the child does
    not end before the deadline), the kill is sent at the deadline and the
    call returns at once: the kill is the last thing done, there is no
    second wait, and a child that was still running at the deadline has,
    when the call returns, an exit that the handle has not observed
    ([returncode] is still [None]). *)
Theorem C3_terminate_running_process
    (E : environment) (r : role) (name : string) (grace : Z) (w : world) (p : process) :
  handle r w = Some p → returncode p = None →
  term_raises (beh p) = None → kill_raises (beh p) = None → 0 ≤ grace →
  ∃ w' pre,
    terminate_process E r name grace w = Return tt w'
    ∧ (pre = [] ∨ pre = [StopSet])
    ∧ (∀ te c, os_exit (sigterm (now w) p) = Some (te, c) →
         0 < grace → te < now w + grace →
         out w' = out w ++ [Print ("[" +:+ name +:+ "] terminating…");
                            SigTerm r; WaitFor r grace] ++ pre
                        ++ [Print ("[" +:+ name +:+ "] exited with " +:+ pretty c)]
         ∧ handle r w' ≫= returncode = Some c
         ∧ now w' = now w `max` te)
    ∧ ((grace = 0
        ∨ ∀ te c, os_exit (sigterm (now w) p) = Some (te, c) → now w + grace ≤ te) →
         out w' = out w ++ [Print ("[" +:+ name +:+ "] terminating…");
                            SigTerm r; WaitFor r grace] ++ pre
                        ++ [Print ("[" +:+ name +:+ "] kill (timeout)"); SigKill r]
         ∧ now w' = now w + grace
         ∧ (∃ te, exit_time r w' = Some te ∧ te ≤ now w')
         ∧ ((∀ te c, os_exit (sigterm (now w) p) = Some (te, c) → now w + grace < te) →
            handle r w' ≫= returncode = None)).
Proof.
  intros Hh Hrc Ht Hk Hg.
  rewrite (terminate_running E r name grace w p) by done.
  remember (set_handle r (sigterm (now w) p) _) as w2 eqn:Hw2.
  assert (Hh2 : handle r w2 = Some (sigterm (now w) p))
    by (rewrite Hw2; apply handle_set_handle).
  assert (Hn2 : now w2 = now w) by by rewrite Hw2.
  assert (Ho2 : out w2 = out w ++ [Print ("[" +:+ name +:+ "] terminating…"); SigTerm r]).
  { rewrite Hw2. simpl. by rewrite <- app_assoc. }
  clear Hw2.
  assert (Hrc1 : returncode (sigterm (now w) p) = None) by by rewrite returncode_sigterm.
  (* the path through the kill, after the loop has run until [t] *)
  assert (Hkill : ∀ t, now w `max` t = now w + grace →
    ∃ w' pre,
      (print ("[" +:+ name +:+ "] kill (timeout)");; proc_kill r)
        (turn E t (emit (WaitFor r grace) w2)) = Return tt w'
      ∧ (pre = [] ∨ pre = [StopSet])
      ∧ out w' = out w ++ [Print ("[" +:+ name +:+ "] terminating…");
                            SigTerm r; WaitFor r grace] ++ pre
                       ++ [Print ("[" +:+ name +:+ "] kill (timeout)"); SigKill r]
      ∧ now w' = now w + grace
      ∧ (∃ te, exit_time r w' = Some te ∧ te ≤ now w')
      ∧ ((∀ te c, os_exit (sigterm (now w) p) = Some (te, c) → now w + grace < te) →
         handle r w' ≫= returncode = None)).
  { intros t Hmax. unfold mbind, M_bind, bind, print, act, proc_kill.
    rewrite handle_emit, handle_turn, handle_emit, Hh2. simpl.
    rewrite beh_observe, beh_sigterm, Hk, ?Hn2, ?Hmax.
    eexists _, (if delivered E (now w + grace) (emit (WaitFor r grace) w2)
                then [StopSet] else []).
    split; [done|]. split; [by destruct (delivered _ _ _); auto|].
    rewrite handle_set_handle. unfold exit_time. rewrite handle_set_handle. simpl.
    rewrite Ho2, ?Hn2, ?Hmax, <- !app_assoc. split; [done|]. split; [done|]. split.
    - destruct (sigkill_dead (now w + grace) (observe (now w + grace) (sigterm (now w) p)))
        as (te & c & -> & Hle).
      by exists te.
    - intros Hlate. rewrite returncode_sigkill. by apply observe_running. }
  (* whenever the kill path is taken the first case does not apply *)
  assert (Hpack : ∀ t, now w `max` t = now w + grace →
    (∀ te c, os_exit (sigterm (now w) p) = Some (te, c) →
       0 < grace → te < now w + grace → False) →
    ∃ w' pre,
      (print ("[" +:+ name +:+ "] kill (timeout)");; proc_kill r)
        (turn E t (emit (WaitFor r grace) w2)) = Return tt w'
      ∧ (pre = [] ∨ pre = [StopSet])
      ∧ (∀ te c, os_exit (sigterm (now w) p) = Some (te, c) →
           0 < grace → te < now w + grace →
           out w' = out w ++ [Print ("[" +:+ name +:+ "] terminating…");
                              SigTerm r; WaitFor r grace] ++ pre
                          ++ [Print ("[" +:+ name +:+ "] exited with " +:+ pretty c)]
           ∧ handle r w' ≫= returncode = Some c
           ∧ now w' = now w `max` te)
      ∧ ((grace = 0
          ∨ ∀ te c, os_exit (sigterm (now w) p) = Some (te, c) → now w + grace ≤ te) →
           out w' = out w ++ [Print ("[" +:+ name +:+ "] terminating…");
                              SigTerm r; WaitFor r grace] ++ pre
                          ++ [Print ("[" +:+ name +:+ "] kill (timeout)"); SigKill r]
           ∧ now w' = now w + grace
           ∧ (∃ te, exit_time r w' = Some te ∧ te ≤ now w')
           ∧ ((∀ te c, os_exit (sigterm (now w) p) = Some (te, c) → now w + grace < te) →
              handle r w' ≫= returncode = None))).
  { intros t Hmax Hno. destruct (Hkill t Hmax) as (w' & pre & Hr & Hpre & Hrest).
    exists w', pre. split; [exact Hr|]. split; [done|]. split.
    - intros te c Hos H0 Hlt. destruct (Hno te c Hos H0 Hlt).
    - intros _. exact Hrest. }
  unfold try_except, mbind at 1, M_bind, bind at 1, wait_for_wait.
  destruct (Z.leb_spec grace 0) as [Hg0|Hg0].
  - apply Hpack; [simpl; lia|]. intros; lia.
  - unfold exit_time. rewrite handle_emit, Hh2. simpl.
    destruct (os_exit (sigterm (now w) p)) as [[te c]|] eqn:Hos; simpl.
    + rewrite Hn2. destruct (Z.ltb_spec te (now w + grace)) as [Hlt|Hge].
      * unfold mbind, M_bind, bind, get, print, act.
        rewrite handle_turn, handle_emit, Hh2. simpl.
        rewrite (observe_exited _ te c) by (done || lia).
        eexists _, (if delivered E (now w2 `max` te) (emit (WaitFor r grace) w2)
                    then [StopSet] else []).
        split; [done|]. split; [by destruct (delivered _ _ _); auto|]. split.
        -- intros te' c' [= <- <-] _ _. simpl. rewrite Ho2, <- !app_assoc.
           split; [done|].
           rewrite handle_emit, handle_turn, handle_emit, Hh2. simpl.
           rewrite (observe_exited _ te c) by (done || lia). split; [done|lia].
        -- intros [->|Hlate]; [lia|]. specialize (Hlate te c eq_refl). lia.
      * apply Hpack; [lia|]. intros te' c' [= <- <-] _ ?. lia.
    + rewrite Hn2. apply Hpack; [lia|]. intros te' c' [=].
Qed.

(** A child that honours SIGTERM within 100 ms is not killed and its status
    -15 is logged; one that ignores it is killed after the 5 s. *)
Lemma C3_witness :
  (∃ w', terminate_process E0 Api "api" 5000 (spawned E0 Api) = Return tt w'
         ∧ out w' = out (spawned E0 Api)
                    ++ [Print "[api] terminating…"; SigTerm Api; WaitFor Api 5000;
                        Print "[api] exited with -15"]
         ∧ handle Api w' ≫= returncode = Some (-15)
         ∧ now w' = 100)
  ∧ (∃ w', terminate_process E0 Ui "tui" 5000 (spawned E0 Ui) = Return tt w'
           ∧ out w' = out (spawned E0 Ui)
                      ++ [Print "[tui] terminating…"; SigTerm Ui; WaitFor Ui 5000;
                          Print "[tui] kill (timeout)"; SigKill Ui]
           ∧ now w' = 5000
           ∧ handle Ui w' ≫= returncode = None).
Proof.
  split.
  - destruct (C3_terminate_running_process E0 Api "api" 5000 (spawned E0 Api) quiet_proc
                eq_refl eq_refl eq_refl eq_refl ltac:(lia))
      as (w' & pre & Hr & Hpre & Hin & _).
    exists w'. split; [exact Hr|].
    destruct (Hin 100 (-15) eq_refl ltac:(lia) eq_refl) as (Ho & Hrc & Hn).
    split; [|split; [exact Hrc|exact Hn]].
    destruct Hpre as [-> | ->]; [exact Ho|].
    vm_compute in Hr. injection Hr as <-. vm_compute in Ho. discriminate Ho.
  - destruct (C3_terminate_running_process E0 Ui "tui" 5000 (spawned E0 Ui)
                {| pid := 4343; beh := stubborn; os_exit := None; returncode := None |}
                eq_refl eq_refl eq_refl eq_refl ltac:(lia))
      as (w' & pre & Hr & Hpre & _ & Hout).
    exists w'. split; [exact Hr|].
    destruct Hout as (Ho & Hn & _ & Hrc); [right; intros te c [=]|].
    split; [|split; [exact Hn|apply Hrc; intros te c [=]]].
    destruct Hpre as [-> | ->]; [exact Ho|].
    vm_compute in Hr. injection Hr as <-. vm_compute in Ho. discriminate Ho.
Defined.

(** C3, counterexample to the claim as stated. A child that ignores SIGTERM
    is killed after the grace period, and [terminate_process] returns right
    after sending the kill: no wait follows it, and the handle still has no
    exit status. *)
Lemma C3_counterexample_no_wait_after_kill :
  ∃ w', terminate_process E0 Ui "tui" 5000 (spawned E0 Ui) = Return tt w'
        ∧ out w' = [Exec Ui ["python"] "/srv" ∅ "proc.log";
                    Print "[tui] terminating…"; SigTerm Ui; WaitFor Ui 5000;
                    Print "[tui] kill (timeout)"; SigKill Ui]
        ∧ last (out w') = Some (SigKill Ui)
        ∧ handle Ui w' ≫= returncode = None.
Proof. eexists. vm_compute. split_and!; reflexivity. Qed.

(** ** A process that has exited *)

Lemma sigterm_exited (t te c : Z) (p : process) :
  os_exit p = Some (te, c) → te ≤ t → os_exit (sigterm t p) = Some (te, c).
Proof.
  intros Hos Hle. unfold sigterm. destruct (term_exit (beh p)) as [[d c']|]; [|done].
  rewrite Hos. destruct (Z.leb_spec te (t + Z.of_N d)); [done|lia].
Qed.

Lemma sigkill_exited (t te c : Z) (p : process) :
  os_exit p = Some (te, c) → te ≤ t → sigkill t p = p.
Proof.
  intros Hos Hle. unfold sigkill. rewrite Hos. destruct (Z.leb_spec te t); [done|lia].
Qed.

(** A kill that finds the child running ends it with status -9. *)
Lemma sigkill_running (t : Z) (p : process) :
  returncode (observe t p) = None → returncode p = None →
  os_exit (sigkill t (observe t p)) = Some (t, -9).
Proof.
  intros Hobs Hrc. unfold sigkill. rewrite os_exit_observe.
  destruct (os_exit p) as [[te c]|] eqn:Hos; [|done].
  destruct (Z.leb_spec te t); [|done].
  by rewrite (observe_exited t te c) in Hobs.
Qed.

(** [terminate_process] on a child that has exited without the handle
    having observed it yet: the guard on [returncode] lets the call
    through, which prints, sends the request and waits; the wait is where
    the exit is observed. *)
Lemma terminate_unobserved (E : environment) (r : role) (name : string) (grace : Z)
    (w : world) (p : process) (te c : Z) :
  handle r w = Some p → returncode p = None →
  os_exit p = Some (te, c) → te ≤ now w →
  term_raises (beh p) = None → kill_raises (beh p) = None →
  ∃ w' l, terminate_process E r name grace w = Return tt w'
          ∧ out w' = out w ++ [Print ("[" +:+ name +:+ "] terminating…");
                               SigTerm r; WaitFor r grace] ++ l
          ∧ handle r w' ≫= returncode = Some c
          ∧ now w' = now w
          ∧ (0 < grace →
             ∃ pre, (pre = [] ∨ pre = [StopSet])
                    ∧ l = pre ++ [Print ("[" +:+ name +:+ "] exited with " +:+ pretty c)]).
Proof.
  intros Hh Hrc Hos Hle Ht Hk.
  rewrite (terminate_running E r name grace w p) by done.
  remember (set_handle r (sigterm (now w) p) _) as w2 eqn:Hw2.
  assert (Hh2 : handle r w2 = Some (sigterm (now w) p))
    by (rewrite Hw2; apply handle_set_handle).
  assert (Hn2 : now w2 = now w) by by rewrite Hw2.
  assert (Ho2 : out w2 = out w ++ [Print ("[" +:+ name +:+ "] terminating…"); SigTerm r]).
  { rewrite Hw2. simpl. by rewrite <- app_assoc. }
  clear Hw2.
  assert (Hrc1 : returncode (sigterm (now w) p) = None) by by rewrite returncode_sigterm.
  assert (Hos1 : os_exit (sigterm (now w) p) = Some (te, c)) by by apply sigterm_exited.
  unfold try_except, mbind at 1, M_bind, bind at 1, wait_for_wait.
  destruct (Z.leb_spec grace 0) as [Hg0|Hg0].
  - unfold mbind, M_bind, bind, print, act, proc_kill.
    rewrite handle_emit, handle_turn, handle_emit, Hh2. simpl.
    rewrite beh_observe, beh_sigterm, Hk, Hn2, Z.max_id.
    eexists _, _. split; [done|]. simpl. rewrite Ho2, <- !app_assoc.
    split; [reflexivity|].
    rewrite handle_set_handle. simpl. rewrite returncode_sigkill.
    rewrite (observe_exited _ te c) by done. split; [done|]. split; lia.
  - unfold exit_time. rewrite handle_emit, Hh2. simpl. rewrite Hos1. simpl.
    rewrite Hn2. destruct (Z.ltb_spec te (now w + grace)) as [Hlt|Hge]; [|lia].
    unfold mbind, M_bind, bind, get, print, act.
    rewrite handle_turn, handle_emit, Hh2. simpl.
    rewrite (observe_exited _ te c) by (done || lia).
    eexists _, _. split; [done|]. simpl. rewrite Ho2, <- !app_assoc.
    split; [reflexivity|].
    rewrite handle_emit, handle_turn, handle_emit, Hh2. simpl.
    rewrite (observe_exited _ te c) by (done || lia). split; [done|].
    split; [lia|]. intros _.
    exists (if delivered E (now w2 `max` te) (emit (WaitFor r grace) w2)
            then [StopSet] else []).
    split; [by destruct (delivered _ _ _); auto|done].
Qed.

Lemma beh_sigkill (t : Z) (p : process) : beh (sigkill t p) = beh p.
Proof.
  unfold sigkill. destruct (os_exit p) as [[te0 c0]|]; [|done]. by destruct (te0 <=? t).
Qed.

(** When [terminate_process], with a request that went through, returns
    with the exit status still absent, it has just killed a child that was
    running: the child has ended, with status -9, and the handle has not
    observed it. *)
Lemma terminate_returned_unobserved (E : environment) (r : role) (name : string)
    (grace : Z) (w w1 : world) (p : process) :
  handle r w = Some p → term_raises (beh p) = None →
  terminate_process E r name grace w = Return tt w1 →
  handle r w1 ≫= returncode = None →
  ∃ p1, handle r w1 = Some p1 ∧ returncode p1 = None
        ∧ os_exit p1 = Some (now w1, -9)
        ∧ beh p1 = beh p ∧ kill_raises (beh p) = None
        ∧ last (out w1) = Some (SigKill r).
Proof.
  intros Hh Ht Hr Hrc1.
  destruct (returncode p) as [c|] eqn:Hrc.
  { rewrite (terminate_exited E r name grace w p c Hh Hrc) in Hr.
    injection Hr as <-. rewrite Hh in Hrc1. simpl in Hrc1. congruence. }
  rewrite (terminate_running E r name grace w p) in Hr by done.
  remember (set_handle r (sigterm (now w) p) _) as w2 eqn:Hw2.
  assert (Hh2 : handle r w2 = Some (sigterm (now w) p))
    by (rewrite Hw2; apply handle_set_handle).
  clear Hw2.
  assert (Hrcq : returncode (sigterm (now w) p) = None) by by rewrite returncode_sigterm.
  (* the path through the kill, after the loop has run until [t] *)
  assert (Hkill : ∀ t,
    (print ("[" +:+ name +:+ "] kill (timeout)");; proc_kill r)
      (turn E t (emit (WaitFor r grace) w2)) = Return tt w1 →
    ∃ p1, handle r w1 = Some p1 ∧ returncode p1 = None
          ∧ os_exit p1 = Some (now w1, -9)
          ∧ beh p1 = beh p ∧ kill_raises (beh p) = None
          ∧ last (out w1) = Some (SigKill r)).
  { intros t. unfold mbind, M_bind, bind, print, act, proc_kill.
    rewrite handle_emit, handle_turn, handle_emit, Hh2. simpl.
    rewrite beh_observe, beh_sigterm.
    destruct (kill_raises (beh p)); [done|]. intros [= <-].
    rewrite handle_set_handle in Hrc1 |- *. simpl in Hrc1.
    rewrite returncode_sigkill in Hrc1.
    eexists. split; [done|]. split; [by rewrite returncode_sigkill|].
    split; [by apply sigkill_running|].
    split; [by rewrite beh_sigkill, beh_observe, beh_sigterm|]. split; [done|].
    cbn [out emit set_handle]. by rewrite last_snoc. }
  unfold try_except, mbind at 1, M_bind, bind at 1, wait_for_wait in Hr.
  destruct (grace <=? 0); [by eapply Hkill|].
  unfold exit_time in Hr. rewrite handle_emit, Hh2 in Hr. simpl in Hr.
  destruct (os_exit (sigterm (now w) p)) as [[te c]|] eqn:Hos; simpl in Hr;
    [|by eapply Hkill].
  destruct (Z.ltb_spec te (now w2 + grace)) as [Hlt|Hge]; [|by eapply Hkill].
  unfold mbind, M_bind, bind, get, print, act in Hr. injection Hr as <-.
  rewrite handle_emit, handle_turn, handle_emit, Hh2 in Hrc1. simpl in Hrc1.
  rewrite (observe_exited _ te c) in Hrc1 by (done || lia). done.
Qed.

(** C4 (amended). [terminate_process] on a handle that has observed the
    exit of its process returns without raising and leaves the world, so
    the observed exit status, as it is; so does a second call after it.
    When the exit has not been observed and [proc.terminate()] raises
    [ProcessLookupError], the call returns without raising, sends nothing
    and leaves the handle as it is, and so does a second call, each having
    printed the log line. A second call right after a first one that
    returned is a no-op when the first observed the exit. It is not after a
    first call that ended with the kill: that call returns with the exit
    status still absent, so the second one prints, sends the request
    again and waits, without raising, and the observed exit status changes
    from absent to -9. *)
Theorem C4_terminate_on_exited_process
    (E : environment) (r : role) (name : string) (grace : Z) (w : world) (p : process) :
  handle r w = Some p →
  (∀ c, returncode p = Some c →
     terminate_process E r name grace w = Return tt w
     ∧ terminate_process E r name grace
         (world_of (terminate_process E r name grace w)) = Return tt w)
  ∧ (returncode p = None → term_raises (beh p) = Some ProcessLookupError →
     ∃ w', terminate_process E r name grace w = Return tt w'
           ∧ handle r w' = Some p ∧ now w' = now w
           ∧ out w' = out w ++ [Print ("[" +:+ name +:+ "] terminating…")]
           ∧ terminate_process E r name grace w'
             = Return tt (emit (Print ("[" +:+ name +:+ "] terminating…")) w'))
  ∧ (∀ w1, terminate_process E r name grace w = Return tt w1 →
       (is_Some (handle r w1 ≫= returncode) →
        terminate_process E r name grace w1 = Return tt w1)
       ∧ (handle r w1 ≫= returncode = None → term_raises (beh p) = None →
          last (out w1) = Some (SigKill r)
          ∧ ∃ w2 l,
              terminate_process E r name grace w1 = Return tt w2
              ∧ out w2 = out w1 ++ [Print ("[" +:+ name +:+ "] terminating…");
                                    SigTerm r; WaitFor r grace] ++ l
              ∧ handle r w2 ≫= returncode = Some (-9)
              ∧ now w2 = now w1
              ∧ (0 < grace →
                 ∃ pre, (pre = [] ∨ pre = [StopSet])
                        ∧ l = pre ++ [Print ("[" +:+ name +:+ "] exited with -9")]))).
Proof.
  intros Hh. split_and!.
  - intros c Hrc. rewrite (terminate_exited E r name grace w p c Hh Hrc).
    split; [done|]. simpl. by apply terminate_exited with p c.
  - intros Hrc Ht. eexists. split; [by eapply terminate_lookup_error|].
    rewrite handle_emit. split_and!; try done.
    eapply terminate_lookup_error; [by rewrite handle_emit| |]; done.
  - intros w1 Hr. split.
    + intros [c Hc]. destruct (handle r w1) as [p1|] eqn:Hh1; [|done].
      simpl in Hc. by apply terminate_exited with p1 c.
    + intros Hrc1 Ht.
      destruct (terminate_returned_unobserved E r name grace w w1 p Hh Ht Hr Hrc1)
        as (p1 & Hh1 & Hrcp1 & Hos1 & Hb1 & Hk & Hlast).
      split; [done|].
      destruct (terminate_unobserved E r name grace w1 p1 (now w1) (-9))
        as (w2 & l & Hr2 & Ho2 & Hrc2 & Hn2 & Hl); try done; try congruence.
      by exists w2, l.
Qed.

(** An exited UI, a reaped one, and one that ignores SIGTERM and is
    terminated twice. *)
Lemma C4_witness :
  (terminate_process E_crashed Ui "tui" 5000 (spawned E_crashed Ui)
   = Return tt (spawned E_crashed Ui)
   ∧ terminate_process E_crashed Ui "tui" 5000
       (world_of (terminate_process E_crashed Ui "tui" 5000 (spawned E_crashed Ui)))
     = Return tt (spawned E_crashed Ui))
  ∧ (∃ w', terminate_process E_reaped Ui "tui" 5000 (spawned E_reaped Ui) = Return tt w'
           ∧ handle Ui w' = Some reaped_proc
           ∧ now w' = now (spawned E_reaped Ui)
           ∧ out w' = out (spawned E_reaped Ui) ++ [Print "[tui] terminating…"]
           ∧ terminate_process E_reaped Ui "tui" 5000 w'
             = Return tt (emit (Print "[tui] terminating…") w'))
  ∧ (let w1 := world_of (terminate_process E0 Ui "tui" 5000 (spawned E0 Ui)) in
     last (out w1) = Some (SigKill Ui)
     ∧ ∃ w2 l,
         terminate_process E0 Ui "tui" 5000 w1 = Return tt w2
         ∧ out w2 = out w1 ++ [Print "[tui] terminating…"; SigTerm Ui; WaitFor Ui 5000] ++ l
         ∧ handle Ui w2 ≫= returncode = Some (-9)
         ∧ now w2 = now w1
         ∧ (0 < 5000 →
            ∃ pre, (pre = [] ∨ pre = [StopSet])
                   ∧ l = pre ++ [Print "[tui] exited with -9"])).
Proof.
  split; [|split].
  - apply (proj1 (C4_terminate_on_exited_process E_crashed Ui "tui" 5000
                    (spawned E_crashed Ui) crashed_proc eq_refl) 1 eq_refl).
  - apply (proj1 (proj2 (C4_terminate_on_exited_process E_reaped Ui "tui" 5000
                           (spawned E_reaped Ui) reaped_proc eq_refl)) eq_refl eq_refl).
  - cbv zeta.
    set (w1 := world_of (terminate_process E0 Ui "tui" 5000 (spawned E0 Ui))).
    assert (H1 : terminate_process E0 Ui "tui" 5000 (spawned E0 Ui) = Return tt w1)
      by (vm_compute; reflexivity).
    assert (H2 : handle Ui w1 ≫= returncode = None) by (vm_compute; reflexivity).
    exact (proj2 (proj2 (proj2 (C4_terminate_on_exited_process E0 Ui "tui" 5000
                                  (spawned E0 Ui)
                                  {| pid := 4343; beh := stubborn; os_exit := None;
                                     returncode := None |} eq_refl))
                    w1 H1) H2 eq_refl).
Defined.

(** C4, counterexample to the claim as stated. A UI that ignores SIGTERM
    is terminated twice in succession. The first call kills it after the
    grace period and returns with the exit status absent. The second call
    is not a no-op: it prints, sends SIGTERM, waits and logs the exit, and
    the observed exit status has changed from absent to -9. *)
Lemma C4_counterexample_second_call_after_kill :
  ∃ w1 w2,
    terminate_process E0 Ui "tui" 5000 (spawned E0 Ui) = Return tt w1
    ∧ handle Ui w1 ≫= returncode = None
    ∧ terminate_process E0 Ui "tui" 5000 w1 = Return tt w2
    ∧ out w2 = out w1 ++ [Print "[tui] terminating…"; SigTerm Ui; WaitFor Ui 5000;
                          Print "[tui] exited with -9"]
    ∧ handle Ui w2 ≫= returncode = Some (-9)
    ∧ w2 ≠ w1.
Proof.
  eexists _, _. split; [vm_compute; reflexivity|].
  split; [vm_compute; reflexivity|]. split; [vm_compute; reflexivity|].
  split; [vm_compute; reflexivity|]. split; [vm_compute; reflexivity|].
  intros H. apply (f_equal (λ w, length (out w))) in H. vm_compute in H. discriminate H.
Qed.

(** ** HealthProbe *)

Definition is_2xx (p : poll) : bool :=
  match p with
  | Status code => (200 <=? code) && (code <? 300)
  | Fails _ => false
  end.

(** The world after a poll issued in [w] and the sleep that follows it. *)
Definition after_poll (E : environment) (url : string) (interval : Z) (w : world) : world :=
  let w1 := block (Z.of_N (poll_dur E (now w))) (emit (HttpGet url) w) in
  turn E (now w1 + interval) (emit (Sleep interval) w1).

(** When the k-th poll (from 0) of a probe started at [start] is issued, as
    long as no poll has succeeded. *)
Fixpoint poll_time (E : environment) (interval : Z) (start : Z) (k : nat) : Z :=
  match k with
  | O => start
  | S k' => poll_time E interval (start + Z.of_N (poll_dur E start) + interval) k'
  end.

Lemma now_after_poll (E : environment) (url : string) (interval : Z) (w : world) :
  0 ≤ interval →
  now (after_poll E url interval w) = now w + Z.of_N (poll_dur E (now w)) + interval.
Proof. intros Hi. unfold after_poll. simpl. lia. Qed.

Lemma poll_time_ge (E : environment) (interval : Z) (k : nat) (start : Z) :
  0 ≤ interval → start ≤ poll_time E interval start k.
Proof.
  intros Hi. revert start. induction k as [|k IH]; intros start; simpl; [lia|].
  specialize (IH (start + Z.of_N (poll_dur E start) + interval)). lia.
Qed.

Lemma loop_deadline (E : environment) (fuel : nat) (url : string) (end_ interval : Z)
    (w : world) :
  end_ ≤ now w → wait_for_http_loop E (S fuel) url end_ interval w = Return false w.
Proof. intros Hle. simpl. destruct (Z.ltb_spec (now w) end_); [lia|done]. Qed.

Lemma loop_healthy (E : environment) (fuel : nat) (url : string) (end_ interval : Z)
    (w : world) :
  now w < end_ → is_2xx (respond E (now w)) = true →
  wait_for_http_loop E (S fuel) url end_ interval w
  = Return true (block (Z.of_N (poll_dur E (now w))) (emit (HttpGet url) w)).
Proof.
  intros Hlt H2. simpl. destruct (Z.ltb_spec (now w) end_); [|lia].
  unfold mbind, M_bind, bind, try_except.
  destruct (respond E (now w)) as [code|e]; [|done]. simpl in H2. by rewrite H2.
Qed.

(** A poll that fails with [URLError], or answers with a status outside
    2xx, is followed by the sleep and the next round of the loop. *)
Lemma loop_unhealthy (E : environment) (fuel : nat) (url : string) (end_ interval : Z)
    (w : world) :
  now w < end_ → is_2xx (respond E (now w)) = false →
  (∀ e, respond E (now w) = Fails e → e = URLError) →
  wait_for_http_loop E (S fuel) url end_ interval w
  = wait_for_http_loop E fuel url end_ interval (after_poll E url interval w).
Proof.
  intros Hlt H2 Hurl. simpl. destruct (Z.ltb_spec (now w) end_); [|lia].
  unfold mbind, M_bind, bind, try_except.
  destruct (respond E (now w)) as [code|e]; simpl in *.
  - by rewrite H2.
  - by rewrite (Hurl e eq_refl).
Qed.

Lemma loop_total (E : environment) (url : string) (end_ interval : Z) (fuel : nat) :
  0 < interval →
  (∀ t e, respond E t = Fails e → e = URLError) →
  ∀ w, (1 ≤ fuel)%nat → end_ - now w ≤ (Z.of_nat fuel - 1) * interval →
  ∃ b w', wait_for_http_loop E fuel url end_ interval w = Return b w'
          ∧ (b = true ↔ ∃ k, poll_time E interval (now w) k < end_
                             ∧ is_2xx (respond E (poll_time E interval (now w) k)) = true).
Proof.
  intros Hi Hurl. induction fuel as [|fuel IH]; intros w Hf Hb; [lia|].
  destruct (Z.lt_ge_cases (now w) end_) as [Hlt|Hge].
  - destruct (is_2xx (respond E (now w))) eqn:H2.
    + rewrite loop_healthy by done. eexists _, _. split; [done|].
      split; [|done]. intros _. by exists 0%nat.
    + rewrite loop_unhealthy by eauto.
      destruct (IH (after_poll E url interval w)) as (b & w' & -> & Hiff).
      * destruct fuel; [|lia]. simpl in Hb. lia.
      * rewrite now_after_poll by lia. nia.
      * exists b, w'. split; [done|]. rewrite Hiff, now_after_poll by lia.
        split.
        -- intros (k & Hk). by exists (S k).
        -- intros ([|k] & Hk & H2k); simpl in *; [congruence|]. by exists k.
  - rewrite loop_deadline by done. exists false, w. split; [done|].
    split; [done|]. intros (k & Hk & _).
    pose proof (poll_time_ge E interval k (now w)). lia.
Qed.





(** ** Events of a run, phase by phase *)

Lemma emits_ret {A} (P : event → bool) (a : A) : emits P (ret a).
Proof. intros w. exists []. by rewrite app_nil_r. Qed.

Lemma emits_raise {A} (P : event → bool) (e : exn) : emits P (@raise A e).
Proof. intros w. exists []. by rewrite app_nil_r. Qed.

Lemma emits_get {A} (P : event → bool) (f : world → A) : emits P (get f).
Proof. intros w. exists []. by rewrite app_nil_r. Qed.

Lemma emits_print (P : event → bool) (s : string) :
  P (Print s) = true → emits P (print s).
Proof. intros HP w. exists [Print s]. simpl. by rewrite HP. Qed.

Lemma emits_bind {A B} (P : event → bool) (m : M A) (k : A → M B) :
  emits P m → (∀ a, emits P (k a)) → emits P (m ≫= k).
Proof.
  intros Hm Hk w. destruct (Hm w) as (l1 & Ho1 & Hl1).
  unfold mbind, M_bind, bind. destruct (m w) as [a w1|e w1|w1|w1]; simpl in *; eauto.
  destruct (Hk a w1) as (l2 & Ho2 & Hl2). exists (l1 ++ l2).
  rewrite Ho2, Ho1, app_assoc, forallb_app, Hl1, Hl2. done.
Qed.

Lemma emits_try_except {A} (P : event → bool) (m : M A) (h : exn → option (M A)) :
  emits P m → (∀ e k, h e = Some k → emits P k) → emits P (try_except m h).
Proof.
  intros Hm Hh w. destruct (Hm w) as (l1 & Ho1 & Hl1).
  unfold try_except. destruct (m w) as [a w1|e w1|w1|w1]; simpl in *; eauto.
  destruct (h e) as [k|] eqn:He; simpl; eauto.
  destruct (Hh e k He w1) as (l2 & Ho2 & Hl2). exists (l1 ++ l2).
  rewrite Ho2, Ho1, app_assoc, forallb_app, Hl1, Hl2. done.
Qed.

Lemma out_turn (E : environment) (t : Z) (w : world) :
  out (turn E t w) = out w ++ (if delivered E (now w `max` t) w then [StopSet] else []).
Proof. done. Qed.

Lemma emits_turn (P : event → bool) (E : environment) (t : world → Z) (f : world → world) :
  P StopSet = true →
  (∀ w, ∃ l, out (f w) = out w ++ l ∧ forallb P l = true) →
  emits P (λ w, Return tt (turn E (t w) (f w))).
Proof.
  intros HP Hf w. destruct (Hf w) as (l & Ho & Hl). simpl. rewrite Ho.
  eexists. rewrite <- app_assoc. split; [done|].
  rewrite forallb_app, Hl. destruct (delivered _ _ _); simpl; by rewrite ?HP.
Qed.

Lemma emits_nothing {A} (P : event → bool) (m : M A) :
  (∀ w, out (world_of (m w)) = out w) → emits P m.
Proof. intros H w. exists []. by rewrite app_nil_r, H. Qed.

Lemma emits_one {A} (P : event → bool) (m : M A) (e : event) :
  P e = true → P StopSet = true →
  (∀ w, out (world_of (m w)) = out w
        ∨ out (world_of (m w)) = out w ++ [e]
        ∨ out (world_of (m w)) = out w ++ [StopSet]
        ∨ out (world_of (m w)) = out w ++ [e; StopSet]) →
  emits P m.
Proof.
  intros He Hs H w. destruct (H w) as [->| [->| [->| ->]]].
  - exists []. by rewrite app_nil_r.
  - exists [e]. simpl. by rewrite He.
  - exists [StopSet]. simpl. by rewrite Hs.
  - exists [e; StopSet]. simpl. by rewrite He, Hs.
Qed.

Lemma emits_spawn_process (P : event → bool) (E : environment) (r : role)
    (cmd : list string) (cwd : string) (env : gmap string string)
    (log_prefix log_file : string) :
  P (Exec r cmd cwd env log_file) = true → P StopSet = true →
  emits P (spawn_process E r cmd cwd env log_prefix log_file).
Proof.
  intros He Hs. apply emits_one with (Exec r cmd cwd env log_file); [done..|].
  intros w. unfold spawn_process.
  destruct (spawn_raises (child E r)); simpl;
    destruct (delivered _ _ _); rewrite ?app_nil_r, <- ?app_assoc; auto.
Qed.

Lemma emits_wait_for_wait (P : event → bool) (E : environment) (r : role) (timeout : Z) :
  P (WaitFor r timeout) = true → P StopSet = true →
  emits P (wait_for_wait E r timeout).
Proof.
  intros He Hs. apply emits_one with (WaitFor r timeout); [done..|].
  intros w. unfold wait_for_wait.
  destruct (timeout <=? 0); [|destruct (exit_time _ _) as [te|]; [destruct (te <? _)|]];
    simpl; destruct (delivered _ _ _); rewrite ?app_nil_r, <- ?app_assoc; auto.
Qed.

Lemma emits_proc_terminate (P : event → bool) (r : role) :
  P (SigTerm r) = true → P StopSet = true → emits P (proc_terminate r).
Proof.
  intros He Hs. apply emits_one with (SigTerm r); [done..|].
  intros w. unfold proc_terminate.
  destruct (handle r w) as [p|]; [destruct (term_raises (beh p))|]; simpl; auto.
Qed.

Lemma emits_proc_kill (P : event → bool) (r : role) :
  P (SigKill r) = true → P StopSet = true → emits P (proc_kill r).
Proof.
  intros He Hs. apply emits_one with (SigKill r); [done..|].
  intros w. unfold proc_kill.
  destruct (handle r w) as [p|]; [destruct (kill_raises (beh p))|]; simpl; auto.
Qed.

(** [terminate_process] on the process of role [r] logs, signals [r] and
    waits for [r], and does nothing else. *)
Lemma emits_terminate_process (P : event → bool) (E : environment) (r : role)
    (name : string) (grace : Z) :
  (∀ s, P (Print s) = true) → P StopSet = true → P (SigTerm r) = true →
  P (WaitFor r grace) = true → P (SigKill r) = true →
  emits P (terminate_process E r name grace).
Proof.
  intros Hp Hs Ht Hw Hk w. unfold terminate_process.
  destruct (handle r w) as [p|]; [|by apply (emits_ret P tt)].
  destruct (returncode p); [by apply (emits_ret P tt)|].
  revert w. apply emits_bind.
  - apply emits_try_except.
    + apply emits_bind; [by apply emits_print|]. intros _.
      apply emits_bind; [by apply emits_proc_terminate|]. intros _. apply emits_ret.
    + intros e k. destruct e; try done. intros [= <-]. apply emits_ret.
  - intros [|]; [apply emits_ret|]. apply emits_try_except.
    + apply emits_bind; [by apply emits_wait_for_wait|]. intros _.
      apply emits_bind; [apply emits_get|]. intros rc. by apply emits_print.
    + intros e k. destruct e; try done. intros [= <-].
      apply emits_bind; [by apply emits_print|]. intros _. by apply emits_proc_kill.
Qed.

Lemma emits_wait_for_http_loop (P : event → bool) (E : environment) (url : string)
    (end_ interval : Z) (fuel : nat) :
  P (HttpGet url) = true → P (Sleep interval) = true → P StopSet = true →
  emits P (wait_for_http_loop E fuel url end_ interval).
Proof.
  intros Hg Hsl Hs. induction fuel as [|fuel IH]; intros w; simpl.
  - exists []. by rewrite app_nil_r.
  - destruct (now w <? end_); [|exists []; by rewrite app_nil_r].
    revert w. apply emits_bind.
    + apply emits_try_except.
      * apply emits_one with (HttpGet url); [done..|]. intros w.
        destruct (respond E (now w)); simpl; auto.
      * intros e k. destruct e; try done. intros [= <-]. apply emits_ret.
    + intros [|]; [apply emits_ret|]. apply emits_bind; [|done].
      apply emits_one with (Sleep interval); [done..|]. intros w. simpl.
      destruct (delivered _ _ _); rewrite ?app_nil_r, <- ?app_assoc; auto.
Qed.

Lemma emits_wait_for_http (P : event → bool) (E : environment) (url : string)
    (timeout interval : Z) (fuel : nat) :
  P (HttpGet url) = true → P (Sleep interval) = true → P StopSet = true →
  emits P (wait_for_http E fuel url timeout interval).
Proof. intros Hg Hsl Hs w. by apply emits_wait_for_http_loop. Qed.

Lemma emits_start_api (E : environment) (fuel : nat) (args : Args)
    (logs_dir : string) (db_python : option string) :
  emits api_start_ev (start_api E fuel args logs_dir db_python).
Proof.
  unfold start_api. destruct (negb (no_api args)); [|apply emits_ret].
  apply emits_bind; [by apply emits_spawn_process|]. intros _.
  apply emits_bind; [apply emits_get|]. intros p.
  apply emits_bind; [by apply emits_print|]. intros _.
  apply emits_bind; [by apply emits_wait_for_http|].
  intros [|]; [apply emits_ret|by apply emits_print].
Qed.

Lemma emits_start_ui (E : environment) (args : Args)
    (logs_dir : string) (tui_python : option string) :
  emits (ui_start_ev E args) (start_ui E args logs_dir tui_python).
Proof.
  unfold start_ui. destruct (negb (no_ui args)); [|apply emits_ret].
  apply emits_bind.
  - apply emits_spawn_process; [|done]. simpl. by apply bool_decide_eq_true.
  - intros _. apply emits_bind; [apply emits_get|]. intros p. by apply emits_print.
Qed.

Lemma emits_await_task (E : environment) (t : task) : emits running_ev (await_task E t).
Proof.
  apply emits_one with (Await t); [done..|]. intros w. unfold await_task.
  destruct (bool_decide _); [|auto]. destruct (fire_time _ _ _); simpl; [|auto].
  destruct (delivered _ _ _); rewrite ?app_nil_r, <- ?app_assoc; auto.
Qed.

Lemma emits_asyncio_wait (E : environment) (ts : list task) :
  emits running_ev (asyncio_wait E ts).
Proof.
  apply emits_one with (AwaitAny ts); [done..|]. intros w. unfold asyncio_wait.
  destruct (min_time _); simpl; [|auto].
  destruct (delivered _ _ _); rewrite ?app_nil_r, <- ?app_assoc; auto.
Qed.

Lemma emits_wait_loop (E : environment) (fuel : nat) : emits running_ev (wait_loop E fuel).
Proof.
  induction fuel as [|fuel IH]; intros w; simpl.
  - exists []. by rewrite app_nil_r.
  - revert w. apply emits_bind; [apply emits_get|]. intros [|t ts]; [apply emits_ret|].
    apply emits_bind; [apply emits_asyncio_wait|]. intros done.
    destruct (bool_decide _); [apply emits_ret|].
    destruct (_ || _); [apply emits_ret|done].
Qed.

Lemma emits_running (E : environment) (fuel : nat) (args : Args) :
  emits running_ev (running E fuel args).
Proof.
  unfold running.
  apply emits_bind.
  { apply emits_nothing. intros w. unfold make_wait_task. by destruct (_ && _). }
  intros _. apply emits_bind.
  { apply emits_nothing. intros w. unfold make_wait_task. by destruct (_ && _). }
  intros _. apply emits_bind; [by apply emits_nothing|]. intros _.
  destruct (_ && _); [apply emits_await_task|].
  destruct (_ && _); [apply emits_await_task|apply emits_wait_loop].
Qed.

Lemma emits_cancel_pipes_with (P : event → bool) :
  (∀ t, P (CancelIfPending t) = true) → emits P cancel_pipes.
Proof.
  intros HP w. unfold cancel_pipes, act. simpl.
  repeat (destruct (bool_decide _); simpl); rewrite <- ?app_assoc;
    (eexists; split; [try reflexivity; by rewrite app_nil_r|]);
    simpl; by rewrite ?HP.
Qed.

(** No name of [main] is found in the generator's scope: the loop over
    the wait tasks has nothing to iterate over. *)
Lemma named_tasks_nil : named_tasks = [].
Proof. reflexivity. Qed.

Lemma cancel_waits_skip (w : world) : cancel_waits w = Return tt w.
Proof. reflexivity. Qed.

Lemma emits_cancel_waits_with (P : event → bool) : emits P cancel_waits.
Proof. intros w. exists []. by rewrite cancel_waits_skip, app_nil_r. Qed.

Lemma emits_cancel_pipes : emits final_ev cancel_pipes.
Proof. by apply emits_cancel_pipes_with. Qed.

Lemma emits_cancel_waits : emits final_ev cancel_waits.
Proof. apply emits_cancel_waits_with. Qed.

Lemma phases_nil (Ps : list (event → bool)) : phases Ps [].
Proof. induction Ps as [|P Ps IH]; [done|]. by exists [], []. Qed.

Lemma phases_app (Ps1 Ps2 : list (event → bool)) (l1 l2 : list event) :
  phases Ps1 l1 → phases Ps2 l2 → phases (Ps1 ++ Ps2) (l1 ++ l2).
Proof.
  revert l1. induction Ps1 as [|P Ps1 IH]; intros l1; simpl.
  - by intros ->.
  - intros (a & b & -> & Ha & Hb) H2. exists a, (b ++ l2).
    rewrite <- app_assoc. eauto.
Qed.

Lemma phases_front (P : event → bool) (Ps : list (event → bool)) (l1 l2 : list event) :
  forallb P l1 = true → phases (P :: Ps) l2 → phases (P :: Ps) (l1 ++ l2).
Proof.
  intros H1 (a & b & -> & Ha & Hb). exists (l1 ++ a), b.
  by rewrite <- app_assoc, forallb_app, H1, Ha.
Qed.

Lemma phases_app_inv (Ps1 Ps2 : list (event → bool)) (l : list event) :
  phases (Ps1 ++ Ps2) l → ∃ l1 l2, l = l1 ++ l2 ∧ phases Ps1 l1 ∧ phases Ps2 l2.
Proof.
  revert l. induction Ps1 as [|P Ps1 IH]; intros l; simpl.
  - intros H. by exists [], l.
  - intros (a & b & -> & Ha & Hb). destruct (IH b Hb) as (l1 & l2 & -> & H1 & H2).
    exists (a ++ l1), l2. rewrite <- app_assoc. split; [done|]. split; [|done].
    by exists a, l1.
Qed.

(** An event of a phased list satisfies the predicate of one of the phases. *)
Lemma phases_elem (Ps : list (event → bool)) (l : list event) (e : event) :
  phases Ps l → e ∈ l → ∃ P, P ∈ Ps ∧ P e = true.
Proof.
  revert l. induction Ps as [|P Ps IH]; intros l; simpl.
  - intros ->. by intros ?%elem_of_nil.
  - intros (a & b & -> & Ha & Hb) [Hin|Hin]%elem_of_app.
    + exists P. split; [left|].
      rewrite forallb_forall in Ha. apply Ha. by apply list_elem_of_In.
    + destruct (IH b Hb Hin) as (Q & HQ & He). exists Q. split; [by right|done].
Qed.

(** In a phased list, an event that only early phases allow comes before
    an event that only late phases allow. *)
Lemma phases_order (Ps1 Ps2 : list (event → bool)) (l : list event)
    (i j : nat) (a b : event) :
  phases (Ps1 ++ Ps2) l →
  l !! i = Some a → l !! j = Some b →
  (∀ P, P ∈ Ps2 → P a = false) → (∀ P, P ∈ Ps1 → P b = false) →
  (i < j)%nat.
Proof.
  intros (l1 & l2 & -> & H1 & H2)%phases_app_inv Hi Hj Ha Hb.
  destruct (decide (i < length l1)%nat) as [Hi1|Hi1].
  - destruct (decide (j < length l1)%nat) as [Hj1|Hj1]; [|lia].
    rewrite lookup_app_l in Hj by done.
    destruct (phases_elem Ps1 l1 b H1) as (P & HP & Hpb);
      [by eapply list_elem_of_lookup_2|].
    rewrite Hb in Hpb; done.
  - rewrite lookup_app_r in Hi by lia.
    destruct (phases_elem Ps2 l2 a H2) as (P & HP & Hpa);
      [by eapply list_elem_of_lookup_2|].
    rewrite Ha in Hpa; done.
Qed.

Lemma traces_emits {A} (P : event → bool) (m : M A) : emits P m → traces [P] m.
Proof.
  intros H w. destruct (H w) as (l & Ho & Hl). exists l. split; [done|].
  exists l, []. by rewrite app_nil_r.
Qed.

Lemma traces_bind {A B} (Ps1 Ps2 : list (event → bool)) (m : M A) (k : A → M B) :
  traces Ps1 m → (∀ a, traces Ps2 (k a)) → traces (Ps1 ++ Ps2) (m ≫= k).
Proof.
  intros Hm Hk w. destruct (Hm w) as (l1 & Ho1 & Hl1).
  unfold mbind, M_bind, bind.
  destruct (m w) as [a w1|e w1|w1|w1]; simpl in *;
    try (exists l1; split; [done|];
         rewrite <- (app_nil_r l1); apply phases_app; [done|apply phases_nil]).
  destruct (Hk a w1) as (l2 & Ho2 & Hl2). exists (l1 ++ l2).
  rewrite Ho2, Ho1, app_assoc. split; [done|]. by apply phases_app.
Qed.

Lemma traces_front {A B} (P : event → bool) (Ps : list (event → bool))
    (m : M A) (k : A → M B) :
  emits P m → (∀ a, traces (P :: Ps) (k a)) → traces (P :: Ps) (m ≫= k).
Proof.
  intros Hm Hk w. destruct (Hm w) as (l1 & Ho1 & Hl1).
  unfold mbind, M_bind, bind.
  destruct (m w) as [a w1|e w1|w1|w1]; simpl in *;
    try (exists l1; split; [done|];
         rewrite <- (app_nil_r l1); apply phases_front; [done|apply phases_nil]).
  destruct (Hk a w1) as (l2 & Ho2 & Hl2). exists (l1 ++ l2).
  rewrite Ho2, Ho1, app_assoc. split; [done|]. by apply phases_front.
Qed.

Lemma traces_try_finally {A} (Ps1 Ps2 : list (event → bool)) (m : M A) (f : M unit) :
  traces Ps1 m → traces Ps2 f → traces (Ps1 ++ Ps2) (try_finally m f).
Proof.
  intros Hm Hf w. destruct (Hm w) as (l1 & Ho1 & Hl1).
  unfold try_finally, bind.
  destruct (m w) as [a w1|e w1|w1|w1]; simpl in *;
    try (exists l1; split; [done|];
         rewrite <- (app_nil_r l1); apply phases_app; [done|apply phases_nil]).
  - destruct (Hf w1) as (l2 & Ho2 & Hl2). exists (l1 ++ l2).
    split; [|by apply phases_app].
    destruct (f w1); simpl in *; by rewrite Ho2, Ho1, app_assoc.
  - destruct (Hf w1) as (l2 & Ho2 & Hl2). exists (l1 ++ l2).
    split; [|by apply phases_app].
    destruct (f w1); simpl in *; by rewrite Ho2, Ho1, app_assoc.
Qed.

Lemma traces_shutdown (E : environment) :
  traces [terminate_ev Ui; final_ev] (shutdown E).
Proof.
  unfold shutdown. apply traces_front; [apply emits_get|]. intros tui.
  apply (traces_bind [terminate_ev Ui] [final_ev]).
  - apply traces_emits. destruct (still_running tui); [|apply emits_ret].
    by apply emits_terminate_process.
  - intros _. apply traces_emits. apply emits_bind; [apply emits_get|]. intros api.
    apply emits_bind.
    { destruct (still_running api); [|apply emits_ret].
      by apply emits_terminate_process. }
    intros _. apply emits_bind; [apply emits_cancel_pipes|]. intros _.
    apply emits_bind; [apply emits_cancel_waits|]. intros _. by apply emits_print.
Qed.

(** The events of every run of [main], whatever its outcome, fall into five
    consecutive stretches: starting and probing the API, starting the UI,
    the wait of the Running state, terminating the UI, terminating the API
    and cancelling the tasks. *)
Lemma traces_main (E : environment) (fuel : nat) (args : Args) :
  traces (main_phases E args) (main E fuel args).
Proof.
  unfold main, main_phases.
  apply traces_front.
  { unfold ensure_logs_dir. apply emits_bind; [|intros _; apply emits_ret].
    intros w. exists [Mkdir (joinpath E (ROOT E) "logs")]. done. }
  intros logs_dir.
  destruct (_ && _).
  { apply traces_front; [by apply emits_print|]. intros _ w. exists [].
    rewrite app_nil_r. split; [done|]. apply (phases_nil (_ :: _)). }
  destruct (_ && _).
  { apply traces_front; [by apply emits_print|]. intros _ w. exists [].
    rewrite app_nil_r. split; [done|]. apply (phases_nil (_ :: _)). }
  apply (traces_try_finally [api_start_ev; ui_start_ev E args; running_ev]
           [terminate_ev Ui; final_ev]); [|apply traces_shutdown].
  apply (traces_bind [api_start_ev; ui_start_ev E args] [running_ev]).
  - unfold startup. apply (traces_bind [api_start_ev] [ui_start_ev E args]).
    + apply traces_emits, emits_start_api.
    + intros _. apply traces_emits, emits_start_ui.
  - intros _. apply traces_emits, emits_running.
Qed.

(** ** Supervisor: the order of events in a run *)

(** The events of a run of [main] from the initial world. *)
Definition run_events (E : environment) (fuel : nat) (args : Args) : list event :=
  out (world_of (main E fuel args init)).

Lemma run_phases (E : environment) (fuel : nat) (args : Args) :
  phases (main_phases E args) (run_events E fuel args).
Proof.
  destruct (traces_main E fuel args init) as (l & Ho & Hl).
  unfold run_events. by rewrite Ho.
Qed.

(** Shutdown order. In every run of [main], whatever ends the wait and
    whatever the outcome, each action of terminating the UI (SIGTERM, the
    wait for its exit, SIGKILL) comes before each such action on the API. *)
Theorem main_terminates_ui_before_api
    (E : environment) (fuel : nat) (args : Args) (i j : nat) (u a : event) :
  run_events E fuel args !! i = Some u →
  run_events E fuel args !! j = Some a →
  term_action Ui u = true → term_action Api a = true →
  (i < j)%nat.
Proof.
  intros Hi Hj Hu Ha.
  apply (phases_order [api_start_ev; ui_start_ev E args; running_ev; terminate_ev Ui]
           [final_ev] _ i j u a (run_phases E fuel args) Hi Hj).
  - intros P ->%list_elem_of_singleton.
    destruct u as [| | | | | |r|r ?|r| | | |]; try done; by destruct r.
  - intros P HP.
    destruct a as [| | | | | |r|r ?|r| | | |]; try done; destruct r; try done;
      repeat (apply elem_of_cons in HP as [->|HP]; [done|]); by apply elem_of_nil in HP.
Qed.

Lemma main_terminates_ui_before_api_witness : (15 < 20)%nat.
Proof.
  apply (main_terminates_ui_before_api E0 100 args0 15 20 (SigTerm Ui) (SigTerm Api));
    by vm_compute.
Defined.

(** No spawn once the wait has begun. In every run of [main] each spawn of
    a child comes before the wait of the Running state is entered. *)
Theorem main_spawns_before_waiting
    (E : environment) (fuel : nat) (args : Args) (i j : nat) (x v : event) :
  run_events E fuel args !! i = Some x →
  run_events E fuel args !! j = Some v →
  is_exec x = true → is_wait v = true →
  (i < j)%nat.
Proof.
  intros Hi Hj Hx Hv.
  apply (phases_order [api_start_ev; ui_start_ev E args]
           [running_ev; terminate_ev Ui; final_ev] _ i j x v
           (run_phases E fuel args) Hi Hj).
  - intros P HP. destruct x; try done.
    repeat (apply elem_of_cons in HP as [->|HP]; [done|]); by apply elem_of_nil in HP.
  - intros P HP. destruct v; try done;
      repeat (apply elem_of_cons in HP as [->|HP]; [done|]); by apply elem_of_nil in HP.
Qed.

Lemma main_spawns_before_waiting_witness : (10 < 12)%nat.
Proof.
  apply (main_spawns_before_waiting E0 100 args0 10 12
           (Exec Ui ["/srv/dashboard/textual/textual-venv/bin/python"; "app.py"]
              "/srv/dashboard/textual" (tui_env E0 args0) "/srv/dashboard/logs/tui.log")
           (AwaitAny [WaitTask Api; WaitTask Ui; StopTask]));
    by vm_compute.
Defined.

(** Startup order. In every run of [main] the spawn of the API and every
    poll and sleep of the health probe come before the spawn of the UI. *)
Theorem main_ui_started_after_probe
    (E : environment) (fuel : nat) (args : Args) (i j : nat) (x v : event) :
  run_events E fuel args !! i = Some x →
  run_events E fuel args !! j = Some v →
  starts Api x || is_probe x = true → starts Ui v = true →
  (i < j)%nat.
Proof.
  intros Hi Hj Hx Hv.
  apply (phases_order [api_start_ev]
           [ui_start_ev E args; running_ev; terminate_ev Ui; final_ev] _ i j x v
           (run_phases E fuel args) Hi Hj).
  - intros P HP. destruct x as [| |r ? ? ? ?| | | | | | | | | |]; try done;
      [destruct r; [|done]|..];
      repeat (apply elem_of_cons in HP as [->|HP]; [done|]); by apply elem_of_nil in HP.
  - intros P ->%list_elem_of_singleton.
    destruct v as [| |r ? ? ? ?| | | | | | | | | |]; try done. by destruct r.
Qed.

Lemma main_ui_started_after_probe_witness : (9 < 10)%nat.
Proof.
  apply (main_ui_started_after_probe E0 100 args0 9 10
           (HttpGet "http://127.0.0.1:8000/")
           (Exec Ui ["/srv/dashboard/textual/textual-venv/bin/python"; "app.py"]
              "/srv/dashboard/textual" (tui_env E0 args0) "/srv/dashboard/logs/tui.log"));
    by vm_compute.
Defined.

(** The environment of the UI. Whenever a run of [main] spawns the UI, with
    or without the API, the child's environment is the inherited one with
    HOMELAB_API_URL set to http://<api-host>:<api-port> and, only if
    --refresh-seconds was given, HOMELAB_REFRESH_SECONDS set to its value;
    every other variable is inherited unchanged. *)
Theorem main_ui_environment
    (E : environment) (fuel : nat) (args : Args)
    (cmd : list string) (cwd : string) (env : gmap string string) (log_file : string) :
  Exec Ui cmd cwd env log_file ∈ run_events E fuel args →
  env !! "HOMELAB_API_URL" = Some ("http://" +:+ api_host args +:+ ":" +:+ api_port args)
  ∧ env !! "HOMELAB_REFRESH_SECONDS"
    = match refresh_seconds args with
      | Some s => Some s
      | None => os_environ E !! "HOMELAB_REFRESH_SECONDS"
      end
  ∧ ∀ k, k ≠ "HOMELAB_API_URL" → k ≠ "HOMELAB_REFRESH_SECONDS" →
         env !! k = os_environ E !! k.
Proof.
  intros Hin.
  destruct (phases_elem _ _ _ (run_phases E fuel args) Hin) as (P & HP & He).
  assert (env = tui_env E args) as ->.
  { unfold main_phases in HP.
    repeat (apply elem_of_cons in HP as [->|HP]; [try done|]).
    - simpl in He. by apply bool_decide_eq_true in He.
    - by apply elem_of_nil in HP. }
  unfold tui_env, api_url. destruct (refresh_seconds args) as [s|].
  - split_and!.
    + by rewrite lookup_insert_ne, lookup_insert_eq.
    + by rewrite lookup_insert_eq.
    + intros k H1 H2. by rewrite !lookup_insert_ne.
  - split_and!.
    + by rewrite lookup_insert_eq.
    + by rewrite lookup_insert_ne.
    + intros k H1 H2. by rewrite lookup_insert_ne.
Qed.

Lemma main_ui_environment_witness :
  tui_env E0 args0 !! "HOMELAB_API_URL" = Some "http://127.0.0.1:8000"
  ∧ tui_env E0 args0 !! "HOMELAB_REFRESH_SECONDS" = None
  ∧ ∀ k, k ≠ "HOMELAB_API_URL" → k ≠ "HOMELAB_REFRESH_SECONDS" →
         tui_env E0 args0 !! k = os_environ E0 !! k.
Proof.
  apply (main_ui_environment E0 100 args0
           ["/srv/dashboard/textual/textual-venv/bin/python"; "app.py"]
           "/srv/dashboard/textual" (tui_env E0 args0) "/srv/dashboard/logs/tui.log").
  apply list_elem_of_lookup. exists 10%nat. by vm_compute.
Defined.

(** ** Supervisor: particular runs *)

Definition db_venvs (E : environment) : list string :=
  [joinpath E (DB_DIR E) "db-venv"; joinpath E (DB_DIR E) "venv"].

Definition tui_venvs (E : environment) : list string :=
  [joinpath E (TUI_DIR E) "textual-venv"].

(** A missing interpreter. When the API is enabled and neither db-venv nor
    venv holds an interpreter, or the UI is enabled and textual-venv holds
    none, [main] prints an error and exits with status 1 before the [try]:
    nothing is spawned and the [finally] block does not run; the logs
    directory has been created all the same. *)
Theorem main_missing_interpreter
    (E : environment) (fuel : nat) (args : Args) (w : world) :
  (no_api args = false ∧ first_existing E (db_venvs E) = None)
  ∨ (no_ui args = false ∧ first_existing E (tui_venvs E) = None) →
  ∃ msg,
    main E fuel args w
    = Raise (SystemExit 1) (emit (Print msg) (emit (Mkdir (joinpath E (ROOT E) "logs")) w))
    ∧ exit_status (main E fuel args w) = Exit 1.
Proof.
  unfold db_venvs, tui_venvs. intros [[Ha Hdb]|[Hu Htui]].
  - eexists. unfold main. rewrite Ha, Hdb.
    unfold mbind, M_bind, bind, ensure_logs_dir, act, print, raise, mret, M_ret, ret.
    simpl. split; reflexivity.
  - unfold main. rewrite Hu, Htui.
    destruct (negb (no_api args) && negb (bool_decide (is_Some _))); eexists;
      unfold mbind, M_bind, bind, ensure_logs_dir, act, print, raise, mret, M_ret, ret;
      simpl; split; reflexivity.
Qed.

Lemma main_missing_interpreter_witness :
  ∃ msg,
    main E_bare 100 args0 init
    = Raise (SystemExit 1) (emit (Print msg) (emit (Mkdir "/srv/dashboard/logs") init))
    ∧ exit_status (main E_bare 100 args0 init) = Exit 1.
Proof.
  apply (main_missing_interpreter E_bare 100 args0 init).
  left. split; reflexivity.
Defined.

(** ** Supervisor: the wait of the Running state *)

Lemma min_time_attained (l : list Z) (m : Z) : min_time l = Some m → m ∈ l.
Proof.
  destruct l as [|t l]; [done|]. simpl. intros [= <-].
  induction l as [|x l IH]; simpl; [left|].
  destruct (Z.min_spec x (foldr Z.min t l)) as [[_ ->]|[_ ->]].
  - right; left.
  - apply elem_of_cons in IH as [->|IH]; [left|right; by right].
Qed.

Lemma min_time_le (l : list Z) (m x : Z) : min_time l = Some m → x ∈ l → m ≤ x.
Proof.
  destruct l as [|t l]; [done|]. simpl. intros [= <-]. revert x.
  induction l as [|y l IH]; simpl; intros x Hx.
  - apply list_elem_of_singleton in Hx. lia.
  - apply elem_of_cons in Hx as [Hx|Hx].
    + specialize (IH x). rewrite Hx in *. specialize (IH (list_elem_of_here _ _)). lia.
    + apply elem_of_cons in Hx as [Hx|Hx]; [lia|].
      specialize (IH x (list_elem_of_further _ _ _ Hx)). lia.
Qed.

Lemma fire_time_emit (E : environment) (e : event) (w : world) (t : task) :
  fire_time E (emit e w) t = fire_time E w t.
Proof. by destruct t as [| |[]|]. Qed.

(** A task that is pending, and whose condition holds by the time the loop
    has run, is done afterwards. *)
Lemma fired_after_turn (E : environment) (w : world) (t : task) (tf t' : Z) :
  t ∈ tasks w → t ∉ finished w →
  fire_time E w t = Some tf → tf ≤ now w `max` t' →
  t ∈ finished (turn E t' w).
Proof.
  intros Hin Hnf Hfire Hle. unfold turn. cbn [finished].
  apply elem_of_app. right. apply list_elem_of_filter. split; [|done].
  split; [done|].
  destruct t as [| |r|]; simpl in *; try done.
  - destruct r; simpl in *.
    + destruct (api_proc w) as [p|]; [|done]. simpl in *.
      apply bool_decide_eq_true. unfold observe.
      destruct (returncode p) eqn:Hrc; [by rewrite Hrc|].
      destruct (os_exit p) as [[te c]|]; [|done]. simpl in Hfire.
      injection Hfire as ->. destruct (Z.leb_spec tf (now w `max` t')); [done|lia].
    + destruct (tui_proc w) as [p|]; [|done]. simpl in *.
      apply bool_decide_eq_true. unfold observe.
      destruct (returncode p) eqn:Hrc; [by rewrite Hrc|].
      destruct (os_exit p) as [[te c]|]; [|done]. simpl in Hfire.
      injection Hfire as ->. destruct (Z.leb_spec tf (now w `max` t')); [done|lia].
  - unfold delivered. destruct (stop_event w); [done|]. simpl.
    destruct (signals_supported E); [|done]. simpl. rewrite Hfire.
    by apply Z.leb_le.
Qed.

Lemma wait_loop_once (E : environment) (fuel : nat) (w : world) :
  active_tasks w ≠ [] →
  wait_loop E (S fuel) w
  = match min_time (omap (fire_time E w) (active_tasks w)) with
    | Some tf => Return tt (turn E tf (emit (AwaitAny (active_tasks w)) w))
    | None => Blocked (emit (AwaitAny (active_tasks w)) w)
    end.
Proof.
  intros Hne. cbn [wait_loop]. unfold mbind at 1, M_bind, bind at 1, get.
  destruct (active_tasks w) as [|t0 ts0] eqn:Hact; [done|].
  unfold mbind at 1, M_bind, bind at 1, asyncio_wait.
  rewrite (list_omap_ext (fire_time E (emit (AwaitAny (t0 :: ts0)) w))
             (fire_time E w) (t0 :: ts0) (t0 :: ts0))
    by (apply Forall2_same_length_lookup_2; [done|];
        intros i x y Hx Hy; rewrite Hx in Hy; injection Hy as <-;
        apply fire_time_emit).
  destruct (min_time _) as [tf|] eqn:Hmin; [|done].
  set (w' := turn E tf (emit (AwaitAny (t0 :: ts0)) w)).
  apply min_time_attained in Hmin as Hatt.
  apply list_elem_of_omap in Hatt as (t & Htin & Hfire).
  assert (Hact' : t ∈ active_tasks w) by by rewrite Hact.
  apply list_elem_of_filter in Hact' as [[Htask Hnf] Hthree].
  assert (Hdone : t ∈ filter (λ t, t ∈ finished w') (t0 :: ts0)).
  { apply list_elem_of_filter. split; [|done].
    apply (fired_after_turn E (emit (AwaitAny (t0 :: ts0)) w) t tf tf);
      [done|done|by rewrite fire_time_emit|simpl; lia]. }
  case_bool_decide as Hstop; [done|].
  destruct (bool_decide (WaitTask Api ∈ _)) eqn:Hapi; [done|].
  destruct (bool_decide (WaitTask Ui ∈ _)) eqn:Hui; [done|].
  apply bool_decide_eq_false in Hapi, Hui. exfalso.
  repeat (apply elem_of_cons in Hthree as [->|Hthree]; [done|]).
  by apply elem_of_nil in Hthree.
Qed.

(** The wait loop makes a single pass. With pending tasks, the loop calls
    [asyncio.wait] once. If some awaited condition (the exit of a child,
    the stop event) ever holds, the loop ends when the event loop has run
    until the earliest of them; if none ever holds, the coroutine stays
    suspended for ever. It never waits a second time. *)
Theorem wait_loop_single_pass (E : environment) (fuel : nat) (w : world) :
  active_tasks w ≠ [] →
  match min_time (omap (fire_time E w) (active_tasks w)) with
  | Some tf =>
      wait_loop E (S fuel) w
      = Return tt (turn E tf (emit (AwaitAny (active_tasks w)) w))
      ∧ (∃ t, t ∈ active_tasks w ∧ fire_time E w t = Some tf)
      ∧ (∀ t tf', t ∈ active_tasks w → fire_time E w t = Some tf' → tf ≤ tf')
  | None =>
      wait_loop E (S fuel) w = Blocked (emit (AwaitAny (active_tasks w)) w)
      ∧ (∀ t, t ∈ active_tasks w → fire_time E w t = None)
  end.
Proof.
  intros Hne. pose proof (wait_loop_once E fuel w Hne) as Hloop.
  destruct (min_time _) as [tf|] eqn:Hmin.
  - split; [done|]. split.
    + apply min_time_attained in Hmin. by apply list_elem_of_omap in Hmin.
    + intros t tf' Hin Hfire. apply (min_time_le _ _ _ Hmin).
      apply list_elem_of_omap. by exists t.
  - split; [done|]. intros t Hin.
    destruct (fire_time E w t) as [tf|] eqn:Hfire; [|done].
    assert (Hel : tf ∈ omap (fire_time E w) (active_tasks w))
      by (apply list_elem_of_omap; by exists t).
    destruct (omap _ _); [by apply elem_of_nil in Hel|done].
Qed.

Lemma wait_loop_single_pass_witness :
  wait_loop E0 1 (create_tasks [StopTask] init)
  = Return tt (turn E0 60000 (emit (AwaitAny [StopTask]) (create_tasks [StopTask] init)))
  ∧ (∃ t, t ∈ [StopTask] ∧ fire_time E0 (create_tasks [StopTask] init) t = Some 60000)
  ∧ (∀ t tf', t ∈ [StopTask] → fire_time E0 (create_tasks [StopTask] init) t = Some tf' →
              60000 ≤ tf').
Proof. apply (wait_loop_single_pass E0 0 (create_tasks [StopTask] init)). done. Defined.

Lemma run_bind {A B} (m : M A) (k : A → M B) (w w1 : world) (a : A) :
  m w = Return a w1 → (m ≫= k) w = k a w1.
Proof. intros H. unfold mbind, M_bind, bind. by rewrite H. Qed.

Lemma run_ensure_logs_dir (E : environment) (w : world) :
  ensure_logs_dir E w
  = Return (joinpath E (ROOT E) "logs") (emit (Mkdir (joinpath E (ROOT E) "logs")) w).
Proof. done. Qed.

(** Both roles disabled. [main] spawns nothing and waits on the stop event
    alone: if a signal is ever handled it returns, having signalled nothing
    and cancelled nothing, with exit status 0; otherwise it blocks for
    ever. *)
Theorem main_no_roles (E : environment) (fuel : nat) (args : Args) :
  no_api args = true → no_ui args = true → (1 ≤ fuel)%nat →
  let logs := Mkdir (joinpath E (ROOT E) "logs") in
  if signals_supported E && bool_decide (is_Some (stop_at E)) then
    ∃ w', main E fuel args init = Return tt w'
          ∧ out w' = [logs; AwaitAny [StopTask]; StopSet; Print "All done."]
          ∧ exit_status (main E fuel args init) = Exit 0
  else
    ∃ w', main E fuel args init = Blocked w'
          ∧ out w' = [logs; AwaitAny [StopTask]].
Proof.
  intros Ha Hu Hf logs. destruct fuel as [|fuel]; [lia|].
  assert (Hmain : main E (S fuel) args init
    = try_finally (wait_loop E (S fuel)) (shutdown E)
        (create_tasks [StopTask] (emit logs init))).
  { unfold main. rewrite Ha, Hu. cbn [negb andb].
    rewrite (run_bind _ _ _ _ _ (run_ensure_logs_dir E init)).
    unfold try_finally, startup, start_api, start_ui, running, make_wait_task.
    rewrite Ha, Hu. reflexivity. }
  rewrite Hmain. unfold try_finally.
  rewrite wait_loop_once by done.
  change (active_tasks _) with [StopTask]. unfold fire_time. cbn [omap list_omap stop_event create_tasks emit init].
  destruct (signals_supported E) eqn:Hs; cbn [andb].
  - destruct (stop_at E) as [ts|] eqn:Hst; simpl bool_decide; cbv iota.
    + cbn [min_time foldr]. unfold turn, delivered. rewrite Hs, Hst. cbn [stop_event emit create_tasks init negb andb now].
      destruct (Z.leb_spec ts (0 `max` ts)) as [_|?]; [|lia].
      eexists. split; [reflexivity|]. split; reflexivity.
    + eexists. split; reflexivity.
  - eexists. split; reflexivity.
Qed.

Lemma main_no_roles_witness :
  ∃ w', main E0 1 args_none init = Return tt w'
        ∧ out w' = [Mkdir "/srv/dashboard/logs"; AwaitAny [StopTask]; StopSet;
                    Print "All done."]
        ∧ exit_status (main E0 1 args_none init) = Exit 0.
Proof. apply (main_no_roles E0 1 args_none); [reflexivity|reflexivity|lia]. Defined.

Lemma run_spawn_process (E : environment) (r : role) (cmd : list string) (cwd : string)
    (env : gmap string string) (log_prefix log_file : string) (w : world) :
  spawn_raises (child E r) = None →
  spawn_process E r cmd cwd env log_prefix log_file w
  = Return tt
      (create_tasks [PipeOut r; PipeErr r]
         (turn E (now w)
            (set_handle r
               {| pid := child_pid (child E r); beh := child E r;
                  os_exit := (λ '(d, c), (now w + Z.of_N d, c)) <$> self_exit (child E r);
                  returncode := None |}
               (emit (Exec r cmd cwd env log_file) w)))).
Proof. intros H. unfold spawn_process. by rewrite H. Qed.

(** The world in which [main], started with the UI alone, enters its wait. *)
Definition ui_only_world (E : environment) (args : Args) (py : string) : world :=
  let logs := joinpath E (ROOT E) "logs" in
  let p := {| pid := child_pid (child E Ui); beh := child E Ui;
              os_exit := (λ '(d, c), (0 + Z.of_N d, c)) <$> self_exit (child E Ui);
              returncode := None |} in
  let w := turn E 0 (set_handle Ui p
             (emit (Exec Ui [py; "app.py"] (TUI_DIR E) (tui_env E args)
                      (joinpath E logs "tui.log"))
                (emit (Mkdir logs) init))) in
  create_tasks [StopTask]
    (create_tasks [WaitTask Ui]
       (emit (Print ("[tui] started pid=" +:+ str_opt (λ p, pretty (pid p)) (handle Ui w)
                     +:+ " (HOMELAB_API_URL="
                     +:+ str_opt id (tui_env E args !! "HOMELAB_API_URL") +:+ ")"))
          (create_tasks [PipeOut Ui; PipeErr Ui] w))).

Lemma main_ui_only (E : environment) (fuel : nat) (args : Args) (py : string) :
  no_api args = true → no_ui args = false →
  first_existing E (tui_venvs E) = Some py →
  spawn_raises (child E Ui) = None →
  main E fuel args init
  = try_finally (await_task E (WaitTask Ui)) (shutdown E) (ui_only_world E args py).
Proof.
  intros Ha Hu Hpy Hsp. unfold main, tui_venvs in *. rewrite Ha, Hu, Hpy. cbn [negb andb].
  rewrite (run_bind _ _ _ _ _ (run_ensure_logs_dir E init)).
  replace (negb (bool_decide (is_Some (Some py)))) with false by done.
  unfold try_finally at 1. unfold startup, start_api, start_ui.
  rewrite Ha, Hu. cbn [negb].
  unfold mbind at 1, M_bind, bind at 1.
  unfold mbind at 1, M_bind, bind at 1.
  unfold mret, M_ret, ret at 1.
  rewrite (run_bind _ _ _ _ _ (run_spawn_process E Ui _ _ _ _ _ _ Hsp)).
  unfold get at 1. unfold print at 1, act at 1.
  unfold running, make_wait_task. rewrite Ha, Hu. reflexivity.
Qed.

(** The UI alone, and a stop request. Started with --no-api, [main] awaits
    the exit of the UI and nothing else: as long as the UI does not exit by
    itself the run stays suspended in that wait, whether or not a signal
    sets the stop event, and the shutdown is never reached. *)
Theorem main_ui_only_ignores_stop
    (E : environment) (fuel : nat) (args : Args) (py : string) :
  no_api args = true → no_ui args = false →
  first_existing E (tui_venvs E) = Some py →
  spawn_raises (child E Ui) = None →
  self_exit (child E Ui) = None →
  ∃ w', main E fuel args init = Blocked w'
        ∧ last (out w') = Some (Await (WaitTask Ui))
        ∧ handle Api w' = None.
Proof.
  intros Ha Hu Hpy Hsp Hself. rewrite (main_ui_only E fuel args py) by done.
  unfold try_finally, await_task, ui_only_world. rewrite Hself.
  eexists. split; [reflexivity|]. split; [|done].
  cbn [out emit create_tasks]. by rewrite last_snoc.
Qed.

Lemma main_ui_only_ignores_stop_witness :
  ∃ w', main E_stop_early 100 args_ui_only init = Blocked w'
        ∧ last (out w') = Some (Await (WaitTask Ui))
        ∧ handle Api w' = None.
Proof.
  apply (main_ui_only_ignores_stop E_stop_early 100 args_ui_only
           "/srv/dashboard/textual/textual-venv/bin/python"); reflexivity.
Defined.

(** ** ProcessHandle: exceptions *)

(** Exceptions of the signals. On a running process, an exception of
    [proc.terminate()] other than [ProcessLookupError] leaves
    [terminate_process] right after the log line: no wait, no kill. And an
    exception of [proc.kill()], [ProcessLookupError] included, is not
    caught either: when the child has not ended within the grace period and
    the kill raises, [terminate_process] raises. *)
Theorem terminate_process_propagates
    (E : environment) (r : role) (name : string) (grace : Z) (w : world)
    (p : process) (e : exn) :
  handle r w = Some p → returncode p = None →
  (term_raises (beh p) = Some e → e ≠ ProcessLookupError →
   terminate_process E r name grace w
   = Raise e (emit (Print ("[" +:+ name +:+ "] terminating…")) w))
  ∧ (term_raises (beh p) = None → kill_raises (beh p) = Some e →
     (∀ te c, os_exit (sigterm (now w) p) = Some (te, c) → now w + grace ≤ te) →
     ∃ w', terminate_process E r name grace w = Raise e w'
           ∧ last (out w') = Some (Print ("[" +:+ name +:+ "] kill (timeout)"))
           ∧ handle r w' ≫= os_exit = os_exit (sigterm (now w) p)).
Proof.
  intros Hh Hrc. split.
  - intros Ht Hne. unfold terminate_process. rewrite Hh, Hrc.
    unfold mbind, M_bind, bind, try_except, print, act, proc_terminate.
    rewrite handle_emit, Hh, Ht. by destruct e.
  - intros Ht Hk Hlate. rewrite (terminate_running E r name grace w p) by done.
    unfold try_except, mbind at 1, M_bind, bind at 1, wait_for_wait.
    assert (Hkill : ∀ t w2, handle r w2 = Some (sigterm (now w) p) →
      ∃ w', (print ("[" +:+ name +:+ "] kill (timeout)");; proc_kill r) (turn E t w2)
            = Raise e w'
            ∧ last (out w') = Some (Print ("[" +:+ name +:+ "] kill (timeout)"))
            ∧ handle r w' ≫= os_exit = os_exit (sigterm (now w) p)).
    { intros t w2 Hh2. unfold mbind, M_bind, bind, print, act, proc_kill.
      rewrite handle_emit, handle_turn, Hh2. simpl.
      rewrite beh_observe, beh_sigterm, Hk. eexists. split; [done|].
      rewrite handle_emit, handle_turn, Hh2. simpl.
      by rewrite last_snoc, os_exit_observe. }
    set (w2 := emit (WaitFor r grace) _).
    assert (Hh2 : handle r w2 = Some (sigterm (now w) p)).
    { unfold w2. by rewrite handle_emit, handle_set_handle. }
    destruct (grace <=? 0); [by apply Hkill|].
    unfold exit_time. rewrite Hh2. simpl.
    destruct (os_exit (sigterm (now w) p)) as [[te c]|] eqn:Hos; simpl;
      [|by apply Hkill].
    specialize (Hlate te c eq_refl).
    replace (now w2) with (now w) by done.
    destruct (Z.ltb_spec te (now w + grace)); [lia|]. by apply Hkill.
Qed.

Lemma terminate_process_propagates_witness :
  terminate_process E_untouchable Ui "tui" 5000 (spawned E_untouchable Ui)
  = Raise (OSError "PermissionError")
      (emit (Print "[tui] terminating…") (spawned E_untouchable Ui))
  ∧ ∃ w', terminate_process E_vanishing Ui "tui" 5000 (spawned E_vanishing Ui)
          = Raise ProcessLookupError w'
          ∧ last (out w') = Some (Print "[tui] kill (timeout)")
          ∧ handle Ui w' ≫= os_exit = None.
Proof.
  split.
  - apply (proj1 (terminate_process_propagates E_untouchable Ui "tui" 5000
                    (spawned E_untouchable Ui) untouchable_proc
                    (OSError "PermissionError") eq_refl eq_refl));
      [reflexivity|discriminate].
  - apply (proj2 (terminate_process_propagates E_vanishing Ui "tui" 5000
                    (spawned E_vanishing Ui) vanishing_proc
                    ProcessLookupError eq_refl eq_refl));
      [reflexivity|reflexivity|discriminate].
Defined.

(** ** Supervisor: shutdown *)

(** An exception while terminating the UI ends the shutdown. When
    [terminate_process] raises on a UI that is still running, the [finally]
    block raises at that point: the API is not signalled, no task is
    cancelled and the completion line is not printed. *)
Theorem shutdown_aborts_on_ui_error
    (E : environment) (w w1 : world) (e : exn) :
  still_running (handle Ui w) = true →
  terminate_process E Ui "tui" 5000 w = Raise e w1 →
  shutdown E w = Raise e w1
  ∧ ∃ l, out w1 = out w ++ l ∧ forallb (terminate_ev Ui) l = true.
Proof.
  intros Hrun Hterm. split.
  - unfold shutdown, mbind, M_bind, bind, get. by rewrite Hrun, Hterm.
  - destruct (emits_terminate_process (terminate_ev Ui) E Ui "tui" 5000)
      with w as (l & Ho & Hl); try done.
    rewrite Hterm in Ho. by exists l.
Qed.

Lemma shutdown_aborts_on_ui_error_witness :
  ∃ w1, shutdown E_vanishing (both_spawned E_vanishing) = Raise ProcessLookupError w1
        ∧ ∃ l, out w1 = out (both_spawned E_vanishing) ++ l
               ∧ forallb (terminate_ev Ui) l = true.
Proof.
  eexists.
  apply (shutdown_aborts_on_ui_error E_vanishing (both_spawned E_vanishing) _
           ProcessLookupError); [reflexivity|].
  vm_compute. reflexivity.
Defined.

(** ** HealthProbe: bounds and exceptions *)

Lemma n_gets_app (l1 l2 : list event) : n_gets (l1 ++ l2) = (n_gets l1 + n_gets l2)%nat.
Proof. unfold n_gets. by rewrite List.filter_app, length_app. Qed.

Lemma loop_gets (E : environment) (url : string) (end_ interval : Z) (fuel : nat) :
  0 < interval →
  ∀ w, ∃ l, out (world_of (wait_for_http_loop E fuel url end_ interval w)) = out w ++ l
            ∧ (n_gets l = 0%nat ∨ now w + (Z.of_nat (n_gets l) - 1) * interval < end_).
Proof.
  intros Hi. induction fuel as [|fuel IH]; intros w.
  { exists []. rewrite app_nil_r. by split; [|left]. }
  cbn [wait_for_http_loop].
  destruct (Z.ltb_spec (now w) end_) as [Hlt|Hge];
    [|exists []; rewrite app_nil_r; by split; [|left]].
  unfold mbind, M_bind, bind, try_except.
  assert (Hone : ∀ (o : outcome bool),
            out (world_of o) = out w ++ [HttpGet url] →
            ∃ l, out (world_of o) = out w ++ l
                 ∧ (n_gets l = 0%nat ∨ now w + (Z.of_nat (n_gets l) - 1) * interval < end_)).
  { intros o Ho. exists [HttpGet url]. split; [done|]. right.
    change (n_gets [HttpGet url]) with 1%nat. lia. }
  assert (Hnext : ∃ l,
            out (world_of (wait_for_http_loop E fuel url end_ interval
                             (after_poll E url interval w))) = out w ++ l
            ∧ (n_gets l = 0%nat ∨ now w + (Z.of_nat (n_gets l) - 1) * interval < end_)).
  { destruct (IH (after_poll E url interval w)) as (l2 & Ho2 & Hn2).
    exists ([HttpGet url; Sleep interval]
            ++ (if delivered E (now (after_poll E url interval w))
                     (emit (Sleep interval)
                        (block (Z.of_N (poll_dur E (now w))) (emit (HttpGet url) w)))
                then [StopSet] else [])
            ++ l2).
    split.
    - rewrite Ho2. unfold after_poll at 1. rewrite out_turn. simpl.
      rewrite <- !app_assoc. done.
    - right. rewrite !n_gets_app.
      replace (n_gets [HttpGet url; Sleep interval]) with 1%nat by done.
      replace (n_gets (if delivered _ _ _ then [StopSet] else [])) with 0%nat
        by by destruct (delivered _ _ _).
      rewrite now_after_poll in Hn2 by lia.
      pose proof (N2Z.is_nonneg (poll_dur E (now w))) as Hd.
      rewrite !Nat2Z.inj_add. change (Z.of_nat 1) with 1. change (Z.of_nat 0) with 0.
      destruct Hn2 as [->|Hn2]; [change (Z.of_nat 0) with 0; lia|].
      replace ((1 + 0 + Z.of_nat (n_gets l2) - 1) * interval)
        with (interval + (Z.of_nat (n_gets l2) - 1) * interval) by ring.
      lia. }
  destruct (respond E (now w)) as [code|e]; simpl.
  - destruct ((200 <=? code) && (code <? 300)); [by apply Hone|apply Hnext].
  - destruct e; try (by apply Hone). apply Hnext.
Qed.

(** The number of polls. With a positive interval, [wait_for_http] issues
    no GET when the timeout is not positive, and otherwise fewer than
    timeout / interval + 1 of them, whatever the answers and the outcome:
    the n-th GET is issued only if (n - 1) intervals fit strictly within the
    timeout. *)
Theorem wait_for_http_polls_bounded
    (E : environment) (fuel : nat) (url : string) (timeout interval : Z) (w : world) :
  0 < interval →
  ∃ l, out (world_of (wait_for_http E fuel url timeout interval w)) = out w ++ l
       ∧ (n_gets l = 0%nat ∨ (Z.of_nat (n_gets l) - 1) * interval < timeout)
       ∧ (timeout ≤ 0 → n_gets l = 0%nat).
Proof.
  intros Hi. unfold wait_for_http.
  destruct (loop_gets E url (now w + timeout) interval fuel Hi w) as (l & Ho & Hn).
  exists l. split; [done|]. split.
  - destruct Hn as [Hn|Hn]; [by left|right; lia].
  - intros Ht. destruct Hn as [Hn|Hn]; [done|].
    destruct (n_gets l); [done|nia].
Qed.

Lemma wait_for_http_polls_bounded_witness :
  ∃ l, out (world_of (wait_for_http E_bare 100 "http://127.0.0.1:8000/" 20000 500 init))
       = out init ++ l
       ∧ (n_gets l = 0%nat ∨ (Z.of_nat (n_gets l) - 1) * 500 < 20000)
       ∧ (20000 ≤ 0 → n_gets l = 0%nat).
Proof.
  apply (wait_for_http_polls_bounded E_bare 100 "http://127.0.0.1:8000/" 20000 500 init).
  lia.
Defined.

Lemma loop_result (E : environment) (url : string) (end_ interval : Z) (fuel : nat) :
  ∀ w b w', wait_for_http_loop E fuel url end_ interval w = Return b w' →
  if b then last (out w') = Some (HttpGet url)
            ∧ ∃ t, now w ≤ t < end_ ∧ is_2xx (respond E t) = true
  else end_ ≤ now w'.
Proof.
  induction fuel as [|fuel IH]; intros w b w'; [done|].
  cbn [wait_for_http_loop].
  destruct (Z.ltb_spec (now w) end_) as [Hlt|Hge]; [|by intros [= <- <-]].
  unfold mbind, M_bind, bind, try_except.
  assert (Hnext : wait_for_http_loop E fuel url end_ interval (after_poll E url interval w)
                  = Return b w' →
                  if b then last (out w') = Some (HttpGet url)
                            ∧ ∃ t, now w ≤ t < end_ ∧ is_2xx (respond E t) = true
                  else end_ ≤ now w').
  { intros Hr. specialize (IH _ _ _ Hr). destruct b; [|done].
    destruct IH as (Hlast & t & Ht & H2). split; [done|]. exists t. split; [|done].
    unfold after_poll in Ht. simpl in Ht. lia. }
  destruct (respond E (now w)) as [code|e] eqn:Hresp; simpl.
  - destruct ((200 <=? code) && (code <? 300)) eqn:H2; [|apply Hnext].
    intros [= <- <-]. simpl. rewrite last_snoc. split; [done|].
    exists (now w). rewrite Hresp. simpl. split; [lia|done].
  - destruct e; first [done | apply Hnext].
Qed.

(** What the result of the probe tells. When [wait_for_http] returns
    [False] the deadline has passed: at least the timeout has elapsed since
    the call. When it returns [True], it does so right after a GET,
    without sleeping again, and some GET issued before the deadline was
    answered with a 2xx status. *)
Theorem wait_for_http_result
    (E : environment) (fuel : nat) (url : string) (timeout interval : Z)
    (w w' : world) (b : bool) :
  wait_for_http E fuel url timeout interval w = Return b w' →
  if b then last (out w') = Some (HttpGet url)
            ∧ ∃ t, now w ≤ t < now w + timeout ∧ is_2xx (respond E t) = true
  else now w + timeout ≤ now w'.
Proof. intros Hr. by apply (loop_result E url _ interval fuel w b w'). Qed.

Lemma wait_for_http_result_witness :
  last (out (world_of (wait_for_http E0 100 "http://127.0.0.1:8000/" 20000 500 init)))
  = Some (HttpGet "http://127.0.0.1:8000/")
  ∧ ∃ t, 0 ≤ t < 0 + 20000 ∧ is_2xx (respond E0 t) = true.
Proof.
  apply (wait_for_http_result E0 100 "http://127.0.0.1:8000/" 20000 500 init _ true).
  vm_compute. reflexivity.
Defined.

Lemma unhealthy_spec (p : poll) :
  unhealthy p = true → is_2xx p = false ∧ ∀ e, p = Fails e → e = URLError.
Proof.
  destruct p as [code|e]; simpl.
  - intros H%negb_true_iff. by split.
  - destruct e; try done. split; [done|]. by intros e [= <-].
Qed.

Lemma loop_raises (E : environment) (url : string) (end_ interval : Z) (e : exn) (k : nat) :
  0 ≤ interval → e ≠ URLError →
  ∀ fuel w,
    (k < fuel)%nat →
    (∀ j, (j < k)%nat → unhealthy (respond E (poll_time E interval (now w) j)) = true) →
    poll_time E interval (now w) k < end_ →
    respond E (poll_time E interval (now w) k) = Fails e →
    ∃ w', wait_for_http_loop E fuel url end_ interval w = Raise e w'
          ∧ last (out w') = Some (HttpGet url).
Proof.
  intros Hi He. induction k as [|k IH]; intros fuel w Hf Hun Hk Hresp.
  - destruct fuel as [|fuel]; [lia|]. simpl in Hk, Hresp. cbn [wait_for_http_loop].
    destruct (Z.ltb_spec (now w) end_); [|lia].
    unfold mbind, M_bind, bind, try_except. rewrite Hresp.
    eexists. split; [by destruct e|]. simpl. by rewrite last_snoc.
  - destruct fuel as [|fuel]; [lia|].
    pose proof (poll_time_ge E interval (S k) (now w) Hi) as Hge.
    destruct (unhealthy_spec _ (Hun 0%nat ltac:(lia))) as [H2 Hurl].
    rewrite loop_unhealthy by (done || lia).
    apply IH; rewrite ?now_after_poll by done; try done; [lia|].
    intros j Hj. apply (Hun (S j)). lia.
Qed.

(** Only [URLError] is caught. If the polls of the probe are unhealthy (a
    status outside 2xx, or [URLError]) up to one, issued before the
    deadline, that raises another exception, then [wait_for_http] raises
    that exception right after that GET: it neither sleeps nor polls
    again, and gives no result. *)
Theorem wait_for_http_propagates
    (E : environment) (fuel : nat) (url : string) (timeout interval : Z)
    (w : world) (e : exn) (k : nat) :
  0 ≤ interval → e ≠ URLError → (k < fuel)%nat →
  (∀ j, (j < k)%nat → unhealthy (respond E (poll_time E interval (now w) j)) = true) →
  poll_time E interval (now w) k - now w < timeout →
  respond E (poll_time E interval (now w) k) = Fails e →
  ∃ w', wait_for_http E fuel url timeout interval w = Raise e w'
        ∧ last (out w') = Some (HttpGet url).
Proof.
  intros Hi He Hf Hun Hk Hresp. unfold wait_for_http.
  apply (loop_raises E url (now w + timeout) interval e k); try done. lia.
Qed.

Lemma wait_for_http_propagates_witness :
  ∃ w', wait_for_http E_timeout 100 "http://127.0.0.1:8000/" 20000 500 init
        = Raise TimeoutError w'
        ∧ last (out w') = Some (HttpGet "http://127.0.0.1:8000/").
Proof.
  apply (wait_for_http_propagates E_timeout 100 "http://127.0.0.1:8000/" 20000 500
           init TimeoutError 2).
  - lia.
  - discriminate.
  - lia.
  - intros [|[|j]] Hj; [reflexivity|reflexivity|lia].
  - reflexivity.
  - reflexivity.
Defined.

(** ** StreamPiper: any stream *)

(** The piper on any stream. Whatever the reads give, [_pipe_stream] sees
    the lines up to the first empty read or failed read and nothing
    after it: it prints each of them with the prefix, writes each to the
    sink (when there is one) followed by a flush, and makes one read more
    than there are such lines. A failed read adds one error line on the
    console, writes nothing to the sink, and ends the piper like an
    end-of-file does: the exception does not escape. *)
Theorem pipe_stream_stops_at_eof_or_error
    (decode : list Byte.byte → pystr) (rd : reader) (prefix : pystr) (tee_file : bool) :
  let p := _pipe_stream decode rd prefix tee_file in
  console p
  = ((λ l, lit "[" ++ prefix ++ lit "] " ++ rstrip (decode l)) <$> leading_lines rd)
    ++ match read_failure rd with
       | Some msg => [lit "[" ++ prefix ++ lit "] stream error: " ++ msg]
       | None => []
       end
  ∧ tee p
    = (if tee_file
       then leading_lines rd ≫= λ l, [SWrite (rstrip (decode l) ++ newline); SFlush]
       else [])
  ∧ reads p = S (length (leading_lines rd)).
Proof.
  cbn zeta. induction rd as [|[[|b l]|msg] rd IH]; try (by destruct tee_file).
  destruct IH as (Hc & Ht & Hr).
  rewrite pipe_line. unfold piped_cons. cbn [console tee reads leading_lines read_failure].
  rewrite Hc, Ht, Hr. split_and!; try done. by destruct tee_file.
Qed.

(** What a line loses on its way to the log. The text written for a line
    is the decoded line without its trailing white space (line feed and
    carriage return included), followed by one line feed: only white space
    is dropped, the kept text does not end in white space, and stripping
    again changes nothing. *)
Theorem sink_line_drops_trailing_space_only (s : pystr) :
  (∃ ws, s = rstrip s ++ ws ∧ forallb isspace ws = true)
  ∧ (∀ c, last (rstrip s) = Some c → isspace c = false)
  ∧ rstrip (rstrip s) = rstrip s.
Proof.
  induction s as [|c s (( ws & Hs & Hws) & Hlast & Hidem)]; [by split; [exists []|]|].
  cbn [rstrip]. destruct (rstrip s) as [|c' r] eqn:Hr.
  - simpl in Hs. subst ws. destruct (isspace c) eqn:Hc.
    + split_and!; try done. exists (c :: s). simpl. by rewrite Hc, Hws.
    + split_and!.
      * by exists s.
      * by intros c0 [= <-].
      * simpl. by rewrite Hc.
  - split_and!.
    + exists ws. split; [|done]. rewrite Hs at 1. done.
    + intros c0 Hc0. apply Hlast. by rewrite last_cons_cons in Hc0.
    + change (rstrip (c :: c' :: r))
        with (match rstrip (c' :: r) with
              | [] => if isspace c then [] else [c]
              | r0 => c :: r0
              end).
      by rewrite Hidem.
Qed.

(** ** Finding the interpreters *)

(** [first_existing] gives the interpreter of the first listed directory
    that is a directory and holds one, so db-venv wins over venv when both
    qualify, and [None] exactly when no listed directory qualifies. *)
Theorem first_existing_first_match (E : environment) (paths : list string) :
  match first_existing E paths with
  | Some py =>
      ∃ l1 p l2, paths = l1 ++ p :: l2
                 ∧ py = venv_python E p
                 ∧ is_dir E p = true ∧ exists_ E py = true
                 ∧ ∀ q, q ∈ l1 → is_dir E q = false ∨ exists_ E (venv_python E q) = false
  | None =>
      ∀ q, q ∈ paths → is_dir E q = false ∨ exists_ E (venv_python E q) = false
  end.
Proof.
  induction paths as [|p paths IH]; [by intros q ?%elem_of_nil|].
  cbn [first_existing]. cbn zeta.
  destruct (is_dir E p) eqn:Hd; [destruct (exists_ E (venv_python E p)) eqn:Hx|].
  - exists [], p, paths. split_and!; try done. by intros q ?%elem_of_nil.
  - destruct (first_existing E paths) as [py|].
    + destruct IH as (l1 & p' & l2 & -> & -> & Hd' & Hx' & Hno).
      exists (p :: l1), p', l2. split_and!; try done.
      intros q [->|Hq]%elem_of_cons; [by right|by apply Hno].
    + intros q [->|Hq]%elem_of_cons; [by right|by apply IH].
  - destruct (first_existing E paths) as [py|].
    + destruct IH as (l1 & p' & l2 & -> & -> & Hd' & Hx' & Hno).
      exists (p :: l1), p', l2. split_and!; try done.
      intros q [->|Hq]%elem_of_cons; [by left|by apply Hno].
    + intros q [->|Hq]%elem_of_cons; [by left|by apply IH].
Qed.

(** ** Supervisor: no respawn *)

Lemma spawn_count_app (r : role) (l1 l2 : list event) :
  spawn_count r (l1 ++ l2) = (spawn_count r l1 + spawn_count r l2)%nat.
Proof. unfold spawn_count. by rewrite List.filter_app, length_app. Qed.

Lemma spawn_count_none (r : role) (P : event → bool) (l : list event) :
  (∀ e, P e = true → starts r e = false) → forallb P l = true → spawn_count r l = 0%nat.
Proof.
  intros HP. induction l as [|e l IH]; [done|]. simpl.
  intros [He Hl]%andb_true_iff. unfold spawn_count in *. simpl.
  rewrite (HP e He). by apply IH.
Qed.

Lemma spawns_none {A} (r : role) (P : event → bool) (m : M A) :
  (∀ e, P e = true → starts r e = false) → emits P m → spawns_at_most r 0 m.
Proof.
  intros HP Hm w. destruct (Hm w) as (l & Ho & Hl). exists l. split; [done|].
  by rewrite (spawn_count_none r P l).
Qed.

Lemma spawns_bind {A B} (r : role) (n1 n2 : nat) (m : M A) (k : A → M B) :
  spawns_at_most r n1 m → (∀ a, spawns_at_most r n2 (k a)) →
  spawns_at_most r (n1 + n2) (m ≫= k).
Proof.
  intros Hm Hk w. destruct (Hm w) as (l1 & Ho1 & Hl1).
  unfold mbind, M_bind, bind.
  destruct (m w) as [a w1|e w1|w1|w1]; simpl in *;
    try (exists l1; split; [done|lia]).
  destruct (Hk a w1) as (l2 & Ho2 & Hl2). exists (l1 ++ l2).
  rewrite Ho2, Ho1, app_assoc, spawn_count_app. split; [done|lia].
Qed.

Lemma spawns_try_finally {A} (r : role) (n1 n2 : nat) (m : M A) (f : M unit) :
  spawns_at_most r n1 m → spawns_at_most r n2 f →
  spawns_at_most r (n1 + n2) (try_finally m f).
Proof.
  intros Hm Hf w. destruct (Hm w) as (l1 & Ho1 & Hl1).
  unfold try_finally, bind.
  destruct (m w) as [a w1|e w1|w1|w1]; simpl in *;
    try (exists l1; split; [done|lia]);
    destruct (Hf w1) as (l2 & Ho2 & Hl2); exists (l1 ++ l2);
    rewrite spawn_count_app; (split; [|lia]);
    destruct (f w1); simpl in *; by rewrite Ho2, Ho1, app_assoc.
Qed.

Lemma spawns_spawn_process (E : environment) (r r' : role) (cmd : list string)
    (cwd : string) (env : gmap string string) (log_prefix log_file : string) :
  spawns_at_most r (if decide (r' = r) then 1 else 0)
    (spawn_process E r' cmd cwd env log_prefix log_file).
Proof.
  intros w. unfold spawn_process. destruct (spawn_raises (child E r')); simpl.
  - exists (if delivered E (now w `max` now w) w then [StopSet] else []).
    split; [done|]. destruct (delivered _ _ _); cbn; lia.
  - eexists. rewrite <- app_assoc. split; [done|].
    rewrite spawn_count_app. unfold spawn_count at 1. cbn [List.filter starts].
    replace (spawn_count r (if delivered _ _ _ then [StopSet] else [])) with 0%nat
      by by destruct (delivered _ _ _).
    destruct (decide (r' = r)) as [->|Hne].
    + rewrite bool_decide_eq_true_2 by done. simpl. lia.
    + rewrite bool_decide_eq_false_2 by done. simpl. lia.
Qed.

Lemma not_exec_not_starts (r : role) (e : event) :
  negb (is_exec e) = true → starts r e = false.
Proof. by destruct e. Qed.

Lemma emits_shutdown_no_exec (E : environment) :
  emits (λ e, negb (is_exec e)) (shutdown E).
Proof.
  unfold shutdown. apply emits_bind; [apply emits_get|]. intros tui.
  apply emits_bind.
  { destruct (still_running tui); [|apply emits_ret]. by apply emits_terminate_process. }
  intros _. apply emits_bind; [apply emits_get|]. intros api.
  apply emits_bind.
  { destruct (still_running api); [|apply emits_ret]. by apply emits_terminate_process. }
  intros _. apply emits_bind.
  { intros w. destruct (emits_cancel_pipes w) as (l & Ho & Hl). exists l. split; [done|].
    rewrite forallb_forall in *. intros e He. specialize (Hl e He). by destruct e. }
  intros _. apply emits_bind; [|intros _; by apply emits_print].
  intros w. destruct (emits_cancel_waits w) as (l & Ho & Hl). exists l. split; [done|].
  rewrite forallb_forall in *. intros e He. specialize (Hl e He). by destruct e.
Qed.

Lemma spawns_main (E : environment) (fuel : nat) (args : Args) (r : role) :
  spawns_at_most r 1 (main E fuel args).
Proof.
  pose proof (not_exec_not_starts r) as Hno.
  unfold main. apply (spawns_bind r 0 1).
  { apply (spawns_none r _ _ Hno). unfold ensure_logs_dir.
    apply emits_bind; [|intros _; apply emits_ret]. intros w. by eexists [_]. }
  intros logs_dir.
  assert (Hexit : ∀ msg, spawns_at_most r 1 (print msg;; @raise unit (SystemExit 1))).
  { intros msg. apply (spawns_bind r 0 1); [|intros _].
    - apply (spawns_none r _ _ Hno). by apply emits_print.
    - intros w. exists []. rewrite app_nil_r. split; [done|]. cbn. lia. }
  destruct (_ && _); [apply Hexit|]. destruct (_ && _); [apply Hexit|].
  apply (spawns_try_finally r 1 0);
    [|apply (spawns_none r _ _ Hno), emits_shutdown_no_exec].
  apply (spawns_bind r 1 0);
    [|intros _; apply (spawns_none r running_ev); [by intros []|apply emits_running]].
  unfold startup.
  replace 1%nat with ((if decide (Api = r) then 1 else 0)
                      + (if decide (Ui = r) then 1 else 0))%nat by by destruct r.
  apply spawns_bind; [|intros _].
  - unfold start_api. destruct (negb (no_api args)).
    + rewrite <- (Nat.add_0_r (if decide (Api = r) then 1 else 0)%nat).
      apply spawns_bind; [apply spawns_spawn_process|]. intros _.
      apply (spawns_none r _ _ Hno).
      apply emits_bind; [apply emits_get|]. intros p.
      apply emits_bind; [by apply emits_print|]. intros _.
      apply emits_bind; [by apply emits_wait_for_http|].
      intros [|]; [apply emits_ret|by apply emits_print].
    + intros w. exists []. rewrite app_nil_r. split; [done|]. cbn. lia.
  - unfold start_ui. destruct (negb (no_ui args)).
    + rewrite <- (Nat.add_0_r (if decide (Ui = r) then 1 else 0)%nat).
      apply spawns_bind; [apply spawns_spawn_process|]. intros _.
      apply (spawns_none r _ _ Hno).
      apply emits_bind; [apply emits_get|]. intros p. by apply emits_print.
    + intros w. exists []. rewrite app_nil_r. split; [done|]. cbn. lia.
Qed.

(** No respawn. In every run of [main], whatever the children do, each
    role is spawned at most once. *)
Theorem main_spawns_each_role_at_most_once
    (E : environment) (fuel : nat) (args : Args) (r : role) :
  (spawn_count r (run_events E fuel args) ≤ 1)%nat.
Proof.
  destruct (spawns_main E fuel args r init) as (l & Ho & Hl).
  unfold run_events. by rewrite Ho.
Qed.

(** ** Supervisor: runs that end *)

Lemma children_of_emit (E : environment) (e : event) (w : world) :
  children_of E w → children_of E (emit e w).
Proof. intros H r p. rewrite handle_emit. apply H. Qed.

Lemma children_of_turn (E : environment) (t : Z) (w : world) :
  children_of E w → children_of E (turn E t w).
Proof.
  intros H r p. rewrite handle_turn. destruct (handle r w) as [p0|] eqn:Hh; [|done].
  intros [= <-]. rewrite beh_observe. by apply H.
Qed.

Lemma children_of_set_handle (E : environment) (r : role) (p : process) (w : world) :
  beh p = child E r → children_of E w → children_of E (set_handle r p w).
Proof.
  intros Hb H r' p'. destruct (decide (r = r')) as [<-|Hne].
  - rewrite handle_set_handle. by intros [= <-].
  - rewrite handle_set_handle_ne by done. apply H.
Qed.

(** [terminate_process] neither blocks nor raises, unless a signal raises. *)
Lemma terminate_process_returns (E : environment) (r : role) (name : string)
    (grace : Z) (w : world) :
  children_of E w → signals_go_through E →
  ∃ w', terminate_process E r name grace w = Return tt w'
        ∧ children_of E w'
        ∧ (stop_event w = true → stop_event w' = true)
        ∧ now w ≤ now w' ≤ now w + 0 `max` grace.
Proof.
  intros Hw Hsig.
  destruct (handle r w) as [p|] eqn:Hh;
    [|exists w; unfold terminate_process; rewrite Hh; split_and!; (done || lia)].
  destruct (returncode p) as [c|] eqn:Hrc;
    [exists w; rewrite (terminate_exited E r name grace w p c) by done;
     split_and!; (done || lia)|].
  destruct (Hsig r) as [Ht Hk]. rewrite <- (Hw r p Hh) in Ht, Hk.
  destruct Ht as [Ht|Ht].
  2:{ rewrite (terminate_lookup_error E r name grace w p) by done.
      eexists. split; [done|]. split; [by refine (children_of_emit _ _ _ _)|].
      split; [done|]. simpl. lia. }
  rewrite (terminate_running E r name grace w p) by done.
  remember (set_handle r (sigterm (now w) p) _) as w1 eqn:Hw1.
  assert (Hc1 : children_of E w1).
  { rewrite Hw1. refine (children_of_set_handle _ _ _ _ _ _);
      [rewrite beh_sigterm; by apply Hw|by do 2 refine (children_of_emit _ _ _ _)]. }
  assert (Hh1 : handle r w1 = Some (sigterm (now w) p))
    by (rewrite Hw1; apply handle_set_handle).
  assert (Hs1 : stop_event w1 = stop_event w) by by rewrite Hw1.
  assert (Hn1 : now w1 = now w) by by rewrite Hw1.
  clear Hw1.
  assert (Hkill : ∀ t, ∃ w',
    (print ("[" +:+ name +:+ "] kill (timeout)");; proc_kill r)
      (turn E t (emit (WaitFor r grace) w1))
    = Return tt w'
    ∧ children_of E w' ∧ (stop_event w = true → stop_event w' = true)
    ∧ now w' = now w `max` t).
  { intros t. unfold mbind, M_bind, bind, print, act, proc_kill.
    rewrite handle_emit, handle_turn, handle_emit, Hh1. simpl.
    rewrite beh_observe, beh_sigterm, Hk. eexists. split; [done|]. split; [|split].
    - refine (children_of_set_handle _ _ _ _ _ _).
      + unfold sigkill. rewrite os_exit_observe.
        destruct (os_exit (sigterm (now w) p)) as [[te0 c0]|];
          [destruct (te0 <=? _)|]; simpl; rewrite ?beh_observe, beh_sigterm;
          by apply Hw.
      + refine (children_of_emit _ _ _ _). refine (children_of_emit _ _ _ _).
        refine (children_of_turn _ _ _ _). by refine (children_of_emit _ _ _ _).
    - intros Hs. simpl. by rewrite Hs1, Hs.
    - simpl. by rewrite Hn1. }
  unfold try_except, mbind at 1, M_bind, bind at 1, wait_for_wait.
  destruct (grace <=? 0).
  { destruct (Hkill (now (emit (WaitFor r grace) w1))) as (w' & Hr & Hc' & Hs' & Hn').
    exists w'. split; [exact Hr|]. split; [done|]. split; [done|].
    rewrite Hn'. simpl. lia. }
  unfold exit_time. rewrite handle_emit, Hh1. simpl.
  destruct (os_exit (sigterm (now w) p)) as [[te c]|]; simpl.
  2:{ destruct (Hkill (now w1 + grace)) as (w' & Hr & Hc' & Hs' & Hn').
      exists w'. split; [exact Hr|]. split; [done|]. split; [done|]. lia. }
  destruct (Z.ltb_spec te (now w1 + grace)).
  2:{ destruct (Hkill (now w1 + grace)) as (w' & Hr & Hc' & Hs' & Hn').
      exists w'. split; [exact Hr|]. split; [done|]. split; [done|]. lia. }
  unfold mbind, M_bind, bind, get, print, act. eexists. split; [done|]. split; [|split].
  - refine (children_of_emit _ _ _ _). refine (children_of_turn _ _ _ _).
    by refine (children_of_emit _ _ _ _).
  - intros Hs. simpl. by rewrite Hs1, Hs.
  - simpl. lia.
Qed.

Lemma shutdown_returns (E : environment) (w : world) :
  children_of E w → signals_go_through E →
  ∃ w', shutdown E w = Return tt w'
        ∧ last (out w') = Some (Print "All done.")
        ∧ (stop_event w = true → stop_event w' = true)
        ∧ now w ≤ now w' ≤ now w + 10000.
Proof.
  intros Hw Hsig. unfold shutdown.
  rewrite (run_bind _ _ w w (handle Ui w)) by done.
  assert (H1 : ∃ w1, (if still_running (handle Ui w)
                      then terminate_process E Ui "tui" 5000 else ret tt) w
                     = Return tt w1
                     ∧ children_of E w1
                     ∧ (stop_event w = true → stop_event w1 = true)
                     ∧ now w ≤ now w1 ≤ now w + 5000).
  { destruct (still_running (handle Ui w)); [|exists w; split_and!; (done || lia)].
    destruct (terminate_process_returns E Ui "tui" 5000 w Hw Hsig)
      as (w1 & Hr & Hc & Hs & Hn). exists w1. split_and!; (done || lia). }
  destruct H1 as (w1 & Hr1 & Hc1 & Hs1 & Hn1). rewrite (run_bind _ _ _ _ _ Hr1).
  rewrite (run_bind _ _ w1 w1 (handle Api w1)) by done.
  assert (H2 : ∃ w2, (if still_running (handle Api w1)
                      then terminate_process E Api "api" 5000 else ret tt) w1
                     = Return tt w2
                     ∧ (stop_event w1 = true → stop_event w2 = true)
                     ∧ now w1 ≤ now w2 ≤ now w1 + 5000).
  { destruct (still_running (handle Api w1)); [|exists w1; split_and!; (done || lia)].
    destruct (terminate_process_returns E Api "api" 5000 w1 Hc1 Hsig)
      as (w2 & Hr & Hc & Hs & Hn). exists w2. split_and!; (done || lia). }
  destruct H2 as (w2 & Hr2 & Hs2 & Hn2). rewrite (run_bind _ _ _ _ _ Hr2).
  unfold cancel_pipes, cancel_waits, print.
  unfold mbind, M_bind, bind, act. eexists. split; [done|].
  split; [cbn [out emit]; by rewrite last_snoc|].
  assert (Hfold : ∀ (c : world → task → bool) (ev : task → event) ts w0,
            let w' := foldl (λ w t, if c w t then emit (ev t) w else w) w0 ts in
            stop_event w' = stop_event w0 ∧ now w' = now w0).
  { intros c ev ts0. induction ts0 as [|t ts0 IH]; intros w0; [done|].
    cbn [foldl]. destruct (IH (if c w0 t then emit (ev t) w0 else w0)) as [-> ->].
    by destruct (c w0 t). }
  cbn [stop_event now emit].
  destruct (Hfold (λ w t, bool_decide (t ∈ tasks w)) CancelIfPending
              [PipeOut Api; PipeErr Api; PipeOut Ui; PipeErr Ui] w2) as [Hs3 Hn3].
  cbn zeta in Hs3, Hn3.
  rewrite named_tasks_nil. change (foldl ?f ?a (@nil pyval)) with a.
  rewrite Hs3, Hn3. split; [auto|lia].
Qed.

(** The shutdown completes, in bounded time. Whatever state the children
    are in (running, exited, never started), if sending them signals raises
    nothing, or only [ProcessLookupError] from [proc.terminate()], the
    [finally] block of [main] returns within two grace periods (10 s), and
    the last thing it does is print the completion line. *)
Theorem shutdown_completes (E : environment) (w : world) :
  children_of E w → signals_go_through E →
  ∃ w', shutdown E w = Return tt w'
        ∧ last (out w') = Some (Print "All done.")
        ∧ now w ≤ now w' ≤ now w + 10000.
Proof.
  intros Hw Hsig. destruct (shutdown_returns E w Hw Hsig) as (w' & Hr & Hl & _ & Hn).
  by exists w'.
Qed.

Lemma shutdown_completes_witness :
  ∃ w', shutdown E0 (both_spawned E0) = Return tt w'
        ∧ last (out w') = Some (Print "All done.")
        ∧ now (both_spawned E0) ≤ now w' ≤ now (both_spawned E0) + 10000.
Proof.
  apply (shutdown_completes E0 (both_spawned E0)).
  - intros [] p [= <-]; reflexivity.
  - intros []; (split; [left|]; reflexivity).
Defined.

Lemma starting_emit (E : environment) (e : event) (w : world) :
  starting E w → starting E (emit e w).
Proof.
  intros (Hc & Ht & Hf). split; [by refine (children_of_emit _ _ _ _)|].
  split; [done|]. intros r p. rewrite handle_emit. apply Hf.
Qed.

Lemma starting_block (E : environment) (d : Z) (w : world) :
  starting E w → starting E (block d w).
Proof.
  intros (Hc & Ht & Hf). split; [|split; [done|]].
  - intros r p Hp. apply (Hc r p). by destruct r.
  - intros r p Hp. apply (Hf r p). by destruct r.
Qed.

Lemma starting_turn (E : environment) (t : Z) (w : world) :
  starting E w → starting E (turn E t w).
Proof.
  intros (Hc & Ht & Hf). split; [by refine (children_of_turn _ _ _ _)|]. split.
  - cbn [tasks finished turn]. intros k [Hin|[Hin|Hin]%elem_of_app]; [by auto..|].
    apply list_elem_of_filter in Hin as [_ ?]. by auto.
  - intros r p. rewrite handle_turn. destruct (handle r w) as [p0|] eqn:Hh; [|done].
    intros [= <-]. rewrite os_exit_observe. by apply (Hf r).
Qed.

Lemma starting_spawn (E : environment) (r : role) (cmd : list string) (cwd : string)
    (env : gmap string string) (log_prefix log_file : string) (w : world) :
  spawn_raises (child E r) = None → starting E w →
  ∃ w', spawn_process E r cmd cwd env log_prefix log_file w = Return tt w'
        ∧ starting E w'
        ∧ ∀ r', r' = r ∨ is_Some (handle r' w) → is_Some (handle r' w').
Proof.
  intros Hsp Hw. rewrite run_spawn_process by done. eexists. split; [done|].
  split.
  - assert (Hs : starting E (turn E (now w)
                 (set_handle r
                    {| pid := child_pid (child E r); beh := child E r;
                       os_exit := (λ '(d, c), (now w + Z.of_N d, c))
                                  <$> self_exit (child E r);
                       returncode := None |}
                    (emit (Exec r cmd cwd env log_file) w)))).
    { apply starting_turn. destruct (starting_emit E (Exec r cmd cwd env log_file) w Hw)
        as (Hc & Ht & Hf).
      split; [by refine (children_of_set_handle _ _ _ _ _ _)|]. split; [done|].
      intros r' p'. destruct (decide (r = r')) as [<-|Hne].
      - rewrite handle_set_handle. intros [= <-] [x Hx]. simpl. rewrite Hx. eauto.
      - rewrite handle_set_handle_ne by done. apply Hf. }
    destruct Hs as (Hc & Ht & Hf).
    split; [intros r' p Hp; apply (Hc r' p); by destruct r'|]. split.
    + cbn [tasks finished create_tasks]. intros k [[Hin|Hin]%elem_of_app|Hin]; [by auto| |by auto].
      repeat (apply elem_of_cons in Hin as [->|Hin]; [done|]). by apply elem_of_nil in Hin.
    + intros r' p Hp. apply (Hf r' p). by destruct r'.
  - intros r' [->|[p Hp]].
    + destruct r; simpl; eauto.
    + destruct r, r'; simpl in *; rewrite ?Hp; simpl; eauto.
Qed.

Lemma starting_wait_for_http_loop (E : environment) (url : string) (end_ interval : Z)
    (fuel : nat) (w : world) :
  starting E w →
  starting E (world_of (wait_for_http_loop E fuel url end_ interval w))
  ∧ ∀ r, is_Some (handle r w) →
         is_Some (handle r (world_of (wait_for_http_loop E fuel url end_ interval w))).
Proof.
  revert w. induction fuel as [|fuel IH]; intros w Hw; [done|].
  cbn [wait_for_http_loop]. destruct (now w <? end_); [|done].
  unfold mbind, M_bind, bind, try_except.
  assert (Hb : starting E (block (Z.of_N (poll_dur E (now w))) (emit (HttpGet url) w)))
    by by apply starting_block, starting_emit.
  assert (Hnext : starting E (after_poll E url interval w)
                  ∧ ∀ r, is_Some (handle r w) →
                         is_Some (handle r (after_poll E url interval w))).
  { split; [by apply starting_turn, starting_emit|].
    intros r [p Hp]. unfold after_poll. rewrite handle_turn.
    replace (handle r (emit _ (block _ (emit _ w)))) with (handle r w) by by destruct r.
    rewrite Hp. simpl. eauto. }
  destruct Hnext as [Hn1 Hn2]. specialize (IH _ Hn1). destruct IH as [IH1 IH2].
  assert (Hsame : ∀ r, is_Some (handle r w) →
            is_Some (handle r (block (Z.of_N (poll_dur E (now w))) (emit (HttpGet url) w))))
    by by intros [].
  destruct (respond E (now w)) as [code|e]; simpl.
  - destruct ((200 <=? code) && (code <? 300)); [done|]. split; [done|]. eauto.
  - destruct e; try done. split; [done|]. eauto.
Qed.

Lemma out_spawn_process (E : environment) (r : role) (cmd : list string) (cwd : string)
    (env : gmap string string) (log_prefix log_file : string) (w w' : world) :
  spawn_process E r cmd cwd env log_prefix log_file w = Return tt w' →
  ∃ post, out w' = out w ++ [Exec r cmd cwd env log_file] ++ post.
Proof.
  unfold spawn_process. destruct (spawn_raises (child E r)); [done|].
  intros [= <-]. eexists. cbn [out create_tasks]. rewrite out_turn. cbn [out set_handle emit].
  by rewrite <- app_assoc.
Qed.

(** The start of both roles, when it succeeds: the world it leaves, the
    result [b] of the probe, and the events around the spawn of the UI. *)
Lemma startup_returns (E : environment) (fuel : nat) (args : Args)
    (logs_dir : string) (db_python tui_python : option string) (w : world) :
  no_api args = false → no_ui args = false →
  (∀ r, spawn_raises (child E r) = None) →
  (∀ t e, respond E t = Fails e → e = URLError) →
  (41 ≤ fuel)%nat →
  starting E w →
  ∃ w' (b : bool) pre post,
    startup E fuel args logs_dir db_python tui_python w = Return tt w'
    ∧ starting E w'
    ∧ out w' = out w ++ pre
               ++ [Exec Ui [str_opt id tui_python; "app.py"] (TUI_DIR E) (tui_env E args)
                     (joinpath E logs_dir "tui.log")] ++ post
    ∧ (b = false →
       last pre = Some (Print "[api] did not become healthy in time; continuing anyway…"))
    ∧ (b = true → ∃ t, is_2xx (respond E t) = true)
    ∧ ∀ r, is_Some (handle r w').
Proof.
  intros Ha Hu Hsp Hurl Hf Hw. unfold startup, start_api, start_ui.
  rewrite Ha, Hu. cbn [negb].
  destruct (starting_spawn E Api
              [str_opt id db_python; "-m"; "uvicorn"; "run:app"; "--host";
               api_host args; "--port"; api_port args; "--reload"]
              (DB_DIR E) (os_environ E) "api" (joinpath E logs_dir "api.log") w
              (Hsp Api) Hw) as (w1 & Hr1 & Hw1 & Hs1).
  destruct (out_spawn_process _ _ _ _ _ _ _ _ _ Hr1) as (post1 & Ho1).
  set (w2 := emit (Print ("[api] started pid="
                          +:+ str_opt (λ p, pretty (pid p)) (handle Api w1)
                          +:+ " at " +:+ api_url args)) w1).
  assert (Hw2 : starting E w2) by by apply starting_emit.
  destruct (loop_total E (api_url args +:+ "/") (now w2 + 20000) 500 fuel
              ltac:(lia) Hurl w2 ltac:(lia) ltac:(lia)) as (b & w3 & Hr3 & _).
  pose proof (starting_wait_for_http_loop E (api_url args +:+ "/") (now w2 + 20000)
                500 fuel w2 Hw2) as [Hw3 Hs3].
  pose proof (loop_result E (api_url args +:+ "/") (now w2 + 20000) 500 fuel
                w2 b w3 Hr3) as Hres.
  destruct (emits_wait_for_http_loop (λ _, true) E (api_url args +:+ "/")
              (now w2 + 20000) 500 fuel eq_refl eq_refl eq_refl w2) as (l3 & Ho3 & _).
  rewrite Hr3 in Hw3, Hs3, Ho3. cbn [world_of] in Hw3, Hs3, Ho3.
  assert (Hapi3 : is_Some (handle Api w3)).
  { apply Hs3. unfold w2. rewrite handle_emit. apply Hs1. by left. }
  assert (Hui : ∀ w4, starting E w4 → is_Some (handle Api w4) →
            ∃ w' post,
              (spawn_process E Ui [str_opt id tui_python; "app.py"] (TUI_DIR E)
                 (tui_env E args) "tui" (joinpath E logs_dir "tui.log");;
               p ← get (handle Ui);
               print ("[tui] started pid=" +:+ str_opt (λ p, pretty (pid p)) p
                      +:+ " (HOMELAB_API_URL="
                      +:+ str_opt id (tui_env E args !! "HOMELAB_API_URL") +:+ ")")) w4
              = Return tt w' ∧ starting E w'
              ∧ out w' = out w4
                         ++ [Exec Ui [str_opt id tui_python; "app.py"] (TUI_DIR E)
                               (tui_env E args) (joinpath E logs_dir "tui.log")] ++ post
              ∧ ∀ r, is_Some (handle r w')).
  { intros w4 Hw4 Hapi4.
    destruct (starting_spawn E Ui [str_opt id tui_python; "app.py"] (TUI_DIR E)
                (tui_env E args) "tui" (joinpath E logs_dir "tui.log") w4
                (Hsp Ui) Hw4) as (w5 & Hr5 & Hw5 & Hs5).
    destruct (out_spawn_process _ _ _ _ _ _ _ _ _ Hr5) as (post5 & Ho5).
    eexists _, (post5 ++ [_]). split; [|split; [apply starting_emit, Hw5|split]].
    - unfold mbind, M_bind, bind. rewrite Hr5. reflexivity.
    - cbn [out emit]. rewrite Ho5, <- !app_assoc. reflexivity.
    - intros r. rewrite handle_emit. apply Hs5. destruct r; [by right|by left]. }
  unfold mbind at 1, M_bind, bind at 1.
  unfold mbind at 1, M_bind, bind at 1. rewrite Hr1.
  unfold mbind at 1, M_bind, bind at 1, get at 1.
  unfold mbind at 1, M_bind, bind at 1, print at 1, act at 1. fold w2.
  unfold mbind at 1, M_bind, bind at 1, wait_for_http. rewrite Hr3.
  assert (Hpre : ∃ pre3, out w3 = out w ++ pre3).
  { eexists. rewrite Ho3. unfold w2. cbn [out emit]. rewrite Ho1, <- !app_assoc.
    reflexivity. }
  destruct Hpre as (pre3 & Hpre).
  destruct b.
  - destruct (Hui w3 Hw3 Hapi3) as (w' & post & Hr & Hw' & Ho & Hall).
    exists w', true, pre3, post.
    split; [exact Hr|]. split; [done|]. split; [|split; [done|split; [|done]]].
    + by rewrite Ho, Hpre, <- !app_assoc.
    + intros _. destruct Hres as (_ & t & _ & H2). by exists t.
  - destruct (Hui _ (starting_emit E
                       (Print "[api] did not become healthy in time; continuing anyway…")
                       w3 Hw3)) as (w' & post & Hr & Hw' & Ho & Hall);
      [by rewrite handle_emit|].
    exists w', false,
      (pre3 ++ [Print "[api] did not become healthy in time; continuing anyway…"]), post.
    split; [exact Hr|]. split; [done|]. split; [|split; [|done]].
    + rewrite Ho. cbn [out emit]. by rewrite Hpre, <- !app_assoc.
    + intros _. by rewrite last_snoc.
Qed.

Lemma min_time_is_some (f : task → option Z) (l : list task) (t : task) :
  t ∈ l → is_Some (f t) → is_Some (min_time (omap f l)).
Proof.
  intros Hin [x Hx].
  assert (Hel : x ∈ omap f l) by (apply list_elem_of_omap; by exists t).
  destruct (omap f l); [by apply elem_of_nil in Hel|done].
Qed.

Lemma running_returns (E : environment) (fuel : nat) (args : Args) (w : world) :
  no_api args = false → no_ui args = false → (1 ≤ fuel)%nat →
  starting E w → (∀ r, is_Some (handle r w)) →
  (signals_supported E = true ∧ is_Some (stop_at E))
  ∨ (∃ r, is_Some (self_exit (child E r))) →
  ∃ w', running E fuel args w = Return tt w' ∧ children_of E w'.
Proof.
  intros Ha Hu Hf (Hc & Ht & Hfate) Hall Hcause. unfold running.
  assert (Hmk : ∀ r w0, is_Some (handle r w0) →
            make_wait_task r false w0 = Return tt (create_tasks [WaitTask r] w0)).
  { intros r w0 Hs. unfold make_wait_task. by rewrite bool_decide_eq_true_2. }
  rewrite Ha, Hu.
  rewrite (run_bind _ _ _ _ _ (Hmk Api w (Hall Api))).
  rewrite (run_bind _ _ _ _ _ (Hmk Ui (create_tasks [WaitTask Api] w) (Hall Ui))).
  set (w3 := create_tasks [StopTask]
               (create_tasks [WaitTask Ui] (create_tasks [WaitTask Api] w))).
  rewrite (run_bind _ _ _ w3 tt) by done. cbn [negb andb].
  destruct fuel as [|fuel]; [lia|].
  assert (Hfresh : ∀ t, is_pipe t = false → t ∉ finished w3).
  { intros t Hp Hin. specialize (Ht t (or_intror Hin)). congruence. }
  assert (Hact : ∀ t, t ∈ [WaitTask Api; WaitTask Ui; StopTask] → t ∈ active_tasks w3).
  { intros t Hin. apply list_elem_of_filter. split; [split|done].
    - unfold w3. cbn [tasks create_tasks]. rewrite <- !app_assoc.
      apply elem_of_app. by right.
    - apply Hfresh.
      repeat (apply elem_of_cons in Hin as [->|Hin]; [done|]). by apply elem_of_nil in Hin. }
  assert (Hsome : ∃ t, t ∈ active_tasks w3 ∧ is_Some (fire_time E w3 t)).
  { destruct Hcause as [[Hsig Hstop]|[r Hself]].
    - exists StopTask. split; [apply Hact; do 2 right; left|].
      unfold fire_time. destruct (stop_event w3); [done|]. by rewrite Hsig.
    - exists (WaitTask r). split; [apply Hact; destruct r; [left|right; left]|].
      destruct (Hall r) as [p Hp]. unfold fire_time.
      replace (handle r w3) with (handle r w) by by destruct r.
      rewrite Hp. simpl. destruct (returncode p); [done|].
      destruct (Hfate r p Hp Hself) as [x ->]. done. }
  destruct Hsome as (t & Hin & Hfire).
  rewrite wait_loop_once by (intros Hnil; rewrite Hnil in Hin; by apply elem_of_nil in Hin).
  destruct (min_time_is_some (fire_time E w3) _ t Hin Hfire) as [tf ->].
  eexists. split; [done|].
  refine (children_of_turn _ _ _ _). refine (children_of_emit _ _ _ _).
  intros r p Hp. apply (Hc r p). by destruct r.
Qed.

(** A run that ends. With both roles enabled, interpreters in place, spawns
    that succeed, a probe whose polls fail with [URLError] only and signals
    that go through, every run of [main] in which something can end the
    wait (a stop signal is delivered at some time, or a child exits by
    itself) ends: [main] returns after the shutdown, its last action being
    the completion line, and the exit status is 0, also when it is the
    exit of a child that ended the wait. *)
Theorem main_ends_with_status_0
    (E : environment) (fuel : nat) (args : Args) (db_py tui_py : string) :
  no_api args = false → no_ui args = false →
  first_existing E (db_venvs E) = Some db_py →
  first_existing E (tui_venvs E) = Some tui_py →
  (∀ r, spawn_raises (child E r) = None) →
  (∀ t e, respond E t = Fails e → e = URLError) →
  signals_go_through E →
  (signals_supported E = true ∧ is_Some (stop_at E))
  ∨ (∃ r, is_Some (self_exit (child E r))) →
  (41 ≤ fuel)%nat →
  ∃ w', main E fuel args init = Return tt w'
        ∧ last (out w') = Some (Print "All done.")
        ∧ exit_status (main E fuel args init) = Exit 0.
Proof.
  intros Ha Hu Hdb Htui Hsp Hurl Hsig Hcause Hf.
  assert (Hinit : starting E (emit (Mkdir (joinpath E (ROOT E) "logs")) init)).
  { apply starting_emit. split; [by intros []|]. split; [|by intros []].
    by intros t [?%elem_of_nil|?%elem_of_nil]. }
  destruct (startup_returns E fuel args (joinpath E (ROOT E) "logs") (Some db_py)
              (Some tui_py) _ Ha Hu Hsp Hurl Hf Hinit)
    as (w1 & _ & _ & _ & Hr1 & Hw1 & _ & _ & _ & Hall).
  destruct (running_returns E fuel args w1 Ha Hu ltac:(lia) Hw1 Hall Hcause)
    as (w2 & Hr2 & Hw2).
  destruct (shutdown_returns E w2 Hw2 Hsig) as (w3 & Hr3 & Hlast & _).
  assert (Hmain : main E fuel args init = Return tt w3).
  { unfold main, db_venvs, tui_venvs in *. rewrite Ha, Hu, Hdb, Htui.
    rewrite (run_bind _ _ _ _ _ (run_ensure_logs_dir E init)).
    replace (negb (bool_decide (is_Some (Some db_py)))) with false by done.
    replace (negb (bool_decide (is_Some (Some tui_py)))) with false by done.
    cbn [negb andb]. unfold try_finally.
    rewrite (run_bind _ _ _ _ _ Hr1), Hr2.
    unfold bind. by rewrite Hr3. }
  exists w3. by rewrite Hmain.
Qed.

Lemma main_ends_with_status_0_witness :
  ∃ w', main E_crashed 100 args0 init = Return tt w'
        ∧ last (out w') = Some (Print "All done.")
        ∧ exit_status (main E_crashed 100 args0 init) = Exit 0.
Proof.
  apply (main_ends_with_status_0 E_crashed 100 args0
           "/srv/dashboard/db_manager/db-venv/bin/python"
           "/srv/dashboard/textual/textual-venv/bin/python");
    try reflexivity.
  - by intros [].
  - intros t e. unfold E_crashed, mkenv, respond, healthy_from.
    destruct (t <? 0); congruence.
  - intros []; (split; [left|]; reflexivity).
  - right. exists Ui. by eexists.
  - lia.
Defined.

(** The UI is started whatever the probe and the stop event say. With both
    roles enabled, interpreters in place, spawns that succeed and a probe
    whose polls fail with [URLError] only, every run of [main] spawns the
    UI, with the interpreter of textual-venv, in the textual directory,
    with the environment that carries the API's URL, and logging to
    tui.log: the stop event is not consulted before the spawn, and a probe
    that never sees a 2xx status only adds the warning line right before
    the spawn. *)
Theorem main_starts_ui_regardless
    (E : environment) (fuel : nat) (args : Args) (db_py tui_py : string) :
  no_api args = false → no_ui args = false →
  first_existing E (db_venvs E) = Some db_py →
  first_existing E (tui_venvs E) = Some tui_py →
  (∀ r, spawn_raises (child E r) = None) →
  (∀ t e, respond E t = Fails e → e = URLError) →
  (41 ≤ fuel)%nat →
  ∃ pre post,
    run_events E fuel args
    = pre ++ [Exec Ui [tui_py; "app.py"] (TUI_DIR E) (tui_env E args)
                (joinpath E (joinpath E (ROOT E) "logs") "tui.log")] ++ post
    ∧ ((∀ t, is_2xx (respond E t) = false) →
       last pre = Some (Print "[api] did not become healthy in time; continuing anyway…")).
Proof.
  intros Ha Hu Hdb Htui Hsp Hurl Hf.
  assert (Hinit : starting E (emit (Mkdir (joinpath E (ROOT E) "logs")) init)).
  { apply starting_emit. split; [by intros []|]. split; [|by intros []].
    by intros t [?%elem_of_nil|?%elem_of_nil]. }
  destruct (startup_returns E fuel args (joinpath E (ROOT E) "logs") (Some db_py)
              (Some tui_py) _ Ha Hu Hsp Hurl Hf Hinit)
    as (w1 & b & pre & post & Hr1 & Hw1 & Ho1 & Hfalse & Htrue & _).
  assert (Hmain : main E fuel args init
                  = try_finally (running E fuel args) (shutdown E) w1).
  { unfold main, db_venvs, tui_venvs in *. rewrite Ha, Hu, Hdb, Htui.
    rewrite (run_bind _ _ _ _ _ (run_ensure_logs_dir E init)).
    replace (negb (bool_decide (is_Some (Some db_py)))) with false by done.
    replace (negb (bool_decide (is_Some (Some tui_py)))) with false by done.
    cbn [negb andb]. unfold try_finally.
    by rewrite (run_bind _ _ _ _ _ Hr1). }
  destruct (traces_try_finally [running_ev] [λ e, negb (is_exec e)]
              (running E fuel args) (shutdown E)
              (traces_emits _ _ (emits_running E fuel args))
              (traces_emits _ _ (emits_shutdown_no_exec E)) w1) as (l & Ho & _).
  exists (Mkdir (joinpath E (ROOT E) "logs") :: pre), (post ++ l). split.
  - unfold run_events. rewrite Hmain, Ho, Ho1. cbn [out emit init app].
    by rewrite <- !app_assoc.
  - intros Hnever. destruct b.
    + destruct (Htrue eq_refl) as (t & H2). by rewrite Hnever in H2.
    + specialize (Hfalse eq_refl). destruct pre as [|e pre]; [done|].
      by rewrite last_cons_cons.
Qed.

Lemma main_starts_ui_regardless_witness :
  ∃ pre post,
    run_events E_stop_early 100 args0
    = pre ++ [Exec Ui ["/srv/dashboard/textual/textual-venv/bin/python"; "app.py"]
                "/srv/dashboard/textual" (tui_env E_stop_early args0)
                "/srv/dashboard/logs/tui.log"] ++ post
    ∧ ((∀ t, is_2xx (respond E_stop_early t) = false) →
       last pre = Some (Print "[api] did not become healthy in time; continuing anyway…")).
Proof.
  apply (main_starts_ui_regardless E_stop_early 100 args0
           "/srv/dashboard/db_manager/db-venv/bin/python"
           "/srv/dashboard/textual/textual-venv/bin/python");
    try reflexivity.
  - by intros [].
  - intros t e. unfold E_stop_early, mkenv, respond, healthy_from.
    destruct (t <? 0); congruence.
  - lia.
Defined.

(** The API cannot be spawned. When the spawn of the API raises, [main]
    does not go on to the UI: the [finally] block runs with no process to
    terminate and no task to cancel, prints the completion line, and the
    exception leaves [main]. Nothing has been spawned or signalled. *)
Theorem main_api_spawn_failure
    (E : environment) (fuel : nat) (args : Args) (db_py : string) (e : exn) :
  no_api args = false →
  first_existing E (db_venvs E) = Some db_py →
  no_ui args = true ∨ is_Some (first_existing E (tui_venvs E)) →
  spawn_raises (child E Api) = Some e →
  ∃ w' stop,
    main E fuel args init = Raise e w'
    ∧ (stop = [] ∨ stop = [StopSet])
    ∧ out w' = [Mkdir (joinpath E (ROOT E) "logs")] ++ stop ++ [Print "All done."]
    ∧ handle Api w' = None ∧ handle Ui w' = None.
Proof.
  intros Ha Hdb Hui Hsp.
  exists (emit (Print "All done.")
            (turn E 0 (emit (Mkdir (joinpath E (ROOT E) "logs")) init))),
         (if delivered E (0 `max` 0) (emit (Mkdir (joinpath E (ROOT E) "logs")) init)
          then [StopSet] else []).
  split; [|split; [by destruct (delivered _ _ _); auto|done]].
  unfold main, db_venvs, tui_venvs in *. rewrite Ha, Hdb.
  rewrite (run_bind _ _ _ _ _ (run_ensure_logs_dir E init)).
  replace (negb (bool_decide (is_Some (Some db_py)))) with false by done.
  cbn [negb andb].
  replace (negb (no_ui args) && negb (bool_decide (is_Some _))) with false.
  2:{ destruct Hui as [->|[py ->]]; [done|]. by destruct (no_ui args). }
  unfold try_finally, startup, start_api. rewrite Ha. cbn [negb].
  unfold mbind at 1, M_bind, bind at 1.
  unfold mbind at 1, M_bind, bind at 1.
  unfold mbind at 1, M_bind, bind at 1.
  unfold spawn_process at 1. rewrite Hsp. reflexivity.
Qed.

Lemma main_api_spawn_failure_witness :
  ∃ w' stop,
    main E_unspawnable 100 args0 init = Raise (OSError "PermissionError") w'
    ∧ (stop = [] ∨ stop = [StopSet])
    ∧ out w' = [Mkdir "/srv/dashboard/logs"] ++ stop ++ [Print "All done."]
    ∧ handle Api w' = None ∧ handle Ui w' = None.
Proof.
  apply (main_api_spawn_failure E_unspawnable 100 args0
           "/srv/dashboard/db_manager/db-venv/bin/python" (OSError "PermissionError"));
    try reflexivity.
  right. by eexists.
Defined.

(** ** ProcessHandle: the steps of a termination *)

(** The kill comes last and only after the grace period. Whatever the
    child does and whatever the signals raise, what [terminate_process]
    adds to the events starts, if anything, with the log line; a SIGKILL is
    the last event when there is one, it follows the log line, the SIGTERM
    and a wait of the whole grace period in that order, and it is sent
    exactly when the grace period (if positive) has elapsed since the
    call. *)
Theorem terminate_process_kills_last
    (E : environment) (r : role) (name : string) (grace : Z) (w : world) :
  let w' := world_of (terminate_process E r name grace w) in
  ∃ l, out w' = out w ++ l
       ∧ (l = [] ∨ ∃ l', l = Print ("[" +:+ name +:+ "] terminating…") :: l')
       ∧ (SigKill r ∈ l →
          ∃ stop, (stop = [] ∨ stop = [StopSet])
                  ∧ l = [Print ("[" +:+ name +:+ "] terminating…");
                         SigTerm r; WaitFor r grace] ++ stop
                        ++ [Print ("[" +:+ name +:+ "] kill (timeout)"); SigKill r]
                  ∧ now w' = now w + 0 `max` grace).
Proof.
  cbn zeta.
  assert (Hnone : ∀ o : outcome unit, out (world_of o) = out w →
            ∃ l, out (world_of o) = out w ++ l
                 ∧ (l = [] ∨ ∃ l', l = Print ("[" +:+ name +:+ "] terminating…") :: l')
                 ∧ (SigKill r ∈ l →
                    ∃ stop, (stop = [] ∨ stop = [StopSet])
                      ∧ l = [Print ("[" +:+ name +:+ "] terminating…");
                             SigTerm r; WaitFor r grace] ++ stop
                            ++ [Print ("[" +:+ name +:+ "] kill (timeout)"); SigKill r]
                      ∧ now (world_of o) = now w + 0 `max` grace)).
  { intros o Ho. exists []. rewrite app_nil_r. split; [done|]. split; [by left|].
    by intros ?%elem_of_nil. }
  destruct (handle r w) as [p|] eqn:Hh;
    [|apply Hnone; unfold terminate_process; by rewrite Hh].
  destruct (returncode p) as [c|] eqn:Hrc;
    [apply Hnone; by rewrite (terminate_exited E r name grace w p c)|].
  clear Hnone.
  destruct (term_raises (beh p)) as [e|] eqn:Ht.
  { exists [Print ("[" +:+ name +:+ "] terminating…")].
    split; [|split; [right; by exists []|]].
    - unfold terminate_process. rewrite Hh, Hrc.
      unfold mbind, M_bind, bind, try_except, print, act, proc_terminate.
      rewrite handle_emit, Hh, Ht. by destruct e.
    - intros Hin%list_elem_of_singleton. done. }
  rewrite (terminate_running E r name grace w p) by done.
  remember (set_handle r (sigterm (now w) p) _) as w1 eqn:Hw1.
  assert (Hh1 : handle r w1 = Some (sigterm (now w) p))
    by (rewrite Hw1; apply handle_set_handle).
  assert (Hn1 : now w1 = now w) by by rewrite Hw1.
  assert (Ho1 : out w1 = out w ++ [Print ("[" +:+ name +:+ "] terminating…"); SigTerm r]).
  { rewrite Hw1. simpl. by rewrite <- app_assoc. }
  clear Hw1.
  set (Q := λ (o : outcome unit),
    ∃ l, out (world_of o) = out w ++ l
         ∧ (l = [] ∨ ∃ l', l = Print ("[" +:+ name +:+ "] terminating…") :: l')
         ∧ (SigKill r ∈ l →
            ∃ stop, (stop = [] ∨ stop = [StopSet])
              ∧ l = [Print ("[" +:+ name +:+ "] terminating…");
                     SigTerm r; WaitFor r grace] ++ stop
                    ++ [Print ("[" +:+ name +:+ "] kill (timeout)"); SigKill r]
              ∧ now (world_of o) = now w + 0 `max` grace)).
  assert (Hkill : ∀ t, now w `max` t = now w + 0 `max` grace →
    Q ((print ("[" +:+ name +:+ "] kill (timeout)");; proc_kill r)
         (turn E t (emit (WaitFor r grace) w1)))).
  { intros t Hmax. unfold mbind, M_bind, bind, print, act, proc_kill.
    rewrite handle_emit, handle_turn, handle_emit, Hh1. cbn [fmap option_fmap option_map].
    set (stop := if delivered E (now (emit (WaitFor r grace) w1) `max` t)
                      (emit (WaitFor r grace) w1) then [StopSet] else []).
    assert (Hst : stop = [] ∨ stop = [StopSet])
      by (unfold stop; destruct (delivered _ _ _); auto).
    destruct (kill_raises (beh _)) as [e|].
    - exists ([Print ("[" +:+ name +:+ "] terminating…"); SigTerm r; WaitFor r grace]
              ++ stop ++ [Print ("[" +:+ name +:+ "] kill (timeout)")]).
      unfold world_of. cbn [out emit]. rewrite out_turn. cbn [out emit]. fold stop.
      rewrite Ho1, <- !app_assoc. split; [done|]. split; [right; by eexists|].
      intros Hin. exfalso. revert Hin.
      destruct Hst as [-> | ->]; cbn [app]; intros Hin;
        repeat (apply elem_of_cons in Hin as [?|Hin]; [done|]);
        by apply elem_of_nil in Hin.
    - exists ([Print ("[" +:+ name +:+ "] terminating…"); SigTerm r; WaitFor r grace]
              ++ stop ++ [Print ("[" +:+ name +:+ "] kill (timeout)"); SigKill r]).
      unfold world_of. cbn [out emit set_handle]. rewrite out_turn. cbn [out emit].
      fold stop. rewrite Ho1, <- !app_assoc. split; [done|]. split; [right; by eexists|].
      intros _. exists stop. split; [done|]. split; [done|].
      cbn [now set_handle emit turn]. rewrite Hn1. done. }
  assert (Hexit : ∀ te,
    Q ((rc ← get (λ w, handle r w ≫= returncode);
        print ("[" +:+ name +:+ "] exited with " +:+ str_opt pretty rc))
         (turn E te (emit (WaitFor r grace) w1)))).
  { intros te. unfold Q, mbind, M_bind, bind, get, print, act, world_of.
    set (stop := if delivered E (now (emit (WaitFor r grace) w1) `max` te)
                      (emit (WaitFor r grace) w1) then [StopSet] else []).
    eexists ([Print ("[" +:+ name +:+ "] terminating…"); SigTerm r; WaitFor r grace]
             ++ stop ++ [Print _]).
    cbn [out emit]. rewrite out_turn. cbn [out emit]. fold stop.
    rewrite Ho1, <- !app_assoc. split; [done|]. split; [right; by eexists|].
    intros Hin. exfalso. revert Hin. unfold stop.
    destruct (delivered _ _ _); cbn [app]; intros Hin;
      repeat (apply elem_of_cons in Hin as [?|Hin]; [done|]);
      by apply elem_of_nil in Hin. }
  match goal with |- ∃ l, out (world_of ?X) = _ ∧ _ => change (Q X) end.
  clearbody Q.
  unfold try_except, mbind at 1, M_bind, bind at 1, wait_for_wait.
  destruct (Z.leb_spec grace 0).
  { assert (Hmax : now w `max` now (emit (WaitFor r grace) w1) = now w + 0 `max` grace)
      by (cbn [now emit]; lia).
    exact (Hkill _ Hmax). }
  assert (Hmax : now w `max` (now w1 + grace) = now w + 0 `max` grace) by lia.
  unfold exit_time. rewrite handle_emit, Hh1. simpl.
  destruct (os_exit (sigterm (now w) p)) as [[te c]|]; simpl;
    [|exact (Hkill _ Hmax)].
  destruct (Z.ltb_spec te (now w1 + grace)); [|exact (Hkill _ Hmax)].
  exact (Hexit te).
Qed.

Lemma terminate_process_kills_last_witness :
  ∃ stop, (stop = [] ∨ stop = [StopSet])
          ∧ now (world_of (terminate_process E0 Ui "tui" 5000 (spawned E0 Ui)))
            = now (spawned E0 Ui) + 0 `max` 5000.
Proof.
  destruct (terminate_process_kills_last E0 Ui "tui" 5000 (spawned E0 Ui))
    as (l & Ho & _ & Hkill).
  assert (Hl : l = [Print "[tui] terminating…"; SigTerm Ui; WaitFor Ui 5000;
                    Print "[tui] kill (timeout)"; SigKill Ui]).
  { vm_compute in Ho. by injection Ho as <-. }
  destruct Hkill as (stop & Hstop & _ & Hnow).
  - rewrite Hl. do 4 right. left.
  - by exists stop.
Defined.

(** ** The UI reads back what the supervisor set *)

(** The settings of a UI started by [main]. In the environment that [main]
    gives to the UI, [Settings.api_url] is http://<api-host>:<api-port>:
    the built-in default is never what is used, though with the default
    command line both coincide. The refresh interval is read from the
    --refresh-seconds value when it was given, else from the inherited
    variable, else from the built-in "5". *)
Theorem ui_settings_come_from_main (E : environment) (args : Args) :
  settings_api_url (tui_env E args)
  = "http://" +:+ api_host args +:+ ":" +:+ api_port args
  ∧ settings_api_url (tui_env E args_default) = settings_api_url ∅
  ∧ settings_refresh_text (tui_env E args)
    = match refresh_seconds args with
      | Some s => s
      | None => settings_refresh_text (os_environ E)
      end.
Proof.
  split_and!.
  2:{ change (tui_env E args_default)
        with (<["HOMELAB_API_URL" := "http://127.0.0.1:8000"]> (os_environ E)).
      unfold settings_api_url, getenv. by rewrite lookup_insert_eq. }
  all: unfold settings_api_url, settings_refresh_text, getenv, tui_env, api_url.
  - destruct (refresh_seconds args);
      by rewrite ?lookup_insert_ne, lookup_insert_eq by done.
  - destruct (refresh_seconds args).
    + by rewrite lookup_insert_eq.
    + by rewrite lookup_insert_ne.
Qed.

(** ** Supervisor: the UI alone *)

Definition no_signal (e : event) : bool :=
  negb (term_action Ui e) && negb (term_action Api e).

(** With no child left running the [finally] block only cancels tasks and
    prints. *)
Lemma shutdown_idle (E : environment) (w : world) :
  still_running (handle Ui w) = false → still_running (handle Api w) = false →
  ∃ w' l, shutdown E w = Return tt w'
          ∧ out w' = out w ++ l ∧ forallb no_signal l = true
          ∧ now w' = now w ∧ handle Ui w' = handle Ui w.
Proof.
  intros Hu Ha. unfold shutdown.
  rewrite (run_bind _ _ w w (handle Ui w)) by done. rewrite Hu.
  rewrite (run_bind _ _ w w tt) by done.
  rewrite (run_bind _ _ w w (handle Api w)) by done. rewrite Ha.
  rewrite (run_bind _ _ w w tt) by done.
  destruct (emits_cancel_pipes_with no_signal ltac:(done) w) as (l1 & Ho1 & Hl1).
  destruct (emits_cancel_waits_with no_signal (world_of (cancel_pipes w)))
    as (l2 & Ho2 & Hl2).
  assert (Hfold : ∀ (c : world → task → bool) (ev : task → event) ts w0,
            let w' := foldl (λ w t, if c w t then emit (ev t) w else w) w0 ts in
            now w' = now w0 ∧ tui_proc w' = tui_proc w0).
  { intros c ev ts0. induction ts0 as [|t ts0 IH]; intros w0; [done|].
    cbn [foldl]. destruct (IH (if c w0 t then emit (ev t) w0 else w0)) as [-> ->].
    by destruct (c w0 t). }
  unfold cancel_pipes, cancel_waits, print, act in *.
  unfold mbind, M_bind, bind. cbn [world_of] in *.
  eexists _, (l1 ++ l2 ++ [Print "All done."]). split; [done|].
  cbn [out emit now handle]. rewrite Ho2, Ho1, <- !app_assoc. split; [done|].
  split.
  - by rewrite !forallb_app, Hl1, Hl2.
  - destruct (Hfold (λ w t, bool_decide (t ∈ tasks w)) CancelIfPending
                [PipeOut Api; PipeErr Api; PipeOut Ui; PipeErr Ui] w) as [Hn3 Hh3].
    cbn zeta in Hn3, Hh3.
    rewrite named_tasks_nil. change (foldl ?f ?a (@nil pyval)) with a.
    cbn [tui_proc emit]. by rewrite Hn3, Hh3.
Qed.

(** The UI alone, exiting by itself. Started with --no-api, when the UI
    exits by itself [main] goes on at the time of that exit, whatever
    signal was delivered before; it sends no signal to any process, since
    the only child has exited, and returns with exit status 0, the UI's own
    exit status being observed but not passed on. *)
Theorem main_ui_only_exit
    (E : environment) (fuel : nat) (args : Args) (py : string) (d : N) (c : Z) :
  no_api args = true → no_ui args = false →
  first_existing E (tui_venvs E) = Some py →
  spawn_raises (child E Ui) = None →
  self_exit (child E Ui) = Some (d, c) →
  ∃ w', main E fuel args init = Return tt w'
        ∧ now w' = Z.of_N d
        ∧ handle Ui w' ≫= returncode = Some c
        ∧ forallb no_signal (out w') = true
        ∧ exit_status (main E fuel args init) = Exit 0.
Proof.
  intros Ha Hu Hpy Hsp Hself. rewrite (main_ui_only E fuel args py) by done.
  unfold try_finally, await_task.
  rewrite bool_decide_eq_true_2
    by (unfold ui_only_world; cbn [tasks create_tasks emit turn set_handle init app];
        do 2 right; left).
  set (W := emit (Await (WaitTask Ui)) (ui_only_world E args py)).
  assert (HoW : forallb no_signal (out W) = true).
  { unfold W, ui_only_world. cbn [out emit create_tasks]. rewrite out_turn.
    cbn [out emit set_handle init app]. by destruct (delivered _ _ _). }
  assert (HnW : now W = 0) by done.
  assert (HaW : handle Api W = None) by done.
  assert (HhW : ∃ p, handle Ui W = Some p ∧ os_exit p = Some (Z.of_N d, c)
                     ∧ (if returncode p is Some c' then c' = c ∧ d = 0%N else True)).
  { unfold W, ui_only_world. rewrite Hself.
    cbn [handle tui_proc emit create_tasks turn set_handle fmap option_fmap option_map].
    eexists. split; [done|]. unfold observe. cbn [returncode os_exit now init].
    destruct (_ <=? _) eqn:Hle; cbn [returncode os_exit].
    - split; [reflexivity|]. split; [reflexivity|].
      apply Z.leb_le in Hle. change (0 + Z.of_N d <= 0) in Hle. lia.
    - split; [reflexivity|]. exact I. }
  destruct HhW as (p & HhW & Hos & Hrc).
  assert (Hfire : ∃ tf, fire_time E W (WaitTask Ui) = Some tf
                        ∧ now W `max` tf = Z.of_N d).
  { unfold fire_time. rewrite HhW. cbn [mbind option_bind].
    destruct (returncode p) as [c'|].
    - eexists. split; [done|]. lia.
    - rewrite Hos. eexists. split; [done|]. rewrite HnW. simpl. lia. }
  destruct Hfire as (tf & -> & Htf).
  assert (Hh' : handle Ui (turn E tf W) ≫= returncode = Some c).
  { rewrite handle_turn, HhW, Htf. cbn [fmap option_fmap option_map mbind option_bind].
    unfold observe. rewrite Hos. destruct (returncode p) as [c'|] eqn:Hc.
    - rewrite Hc. by destruct Hrc as [-> _].
    - by rewrite Z.leb_refl. }
  destruct (shutdown_idle E (turn E tf W)) as (w' & l & Hsh & Ho & Hl & Hn & Hh).
  { destruct (handle Ui (turn E tf W)) as [q|]; [|done]. simpl in Hh'.
    unfold still_running. by rewrite Hh'. }
  { by rewrite handle_turn, HaW. }
  exists w'. unfold bind. rewrite Hsh. unfold ret.
  split; [done|]. split; [by rewrite Hn|]. split; [by rewrite Hh|].
  split; [|done].
  rewrite Ho, out_turn, !forallb_app, HoW, Hl. by destruct (delivered _ _ _).
Qed.

Lemma main_ui_only_exit_witness :
  ∃ w', main E_quitting 10 args_ui_only init = Return tt w'
        ∧ now w' = 60000
        ∧ handle Ui w' ≫= returncode = Some 0
        ∧ forallb no_signal (out w') = true
        ∧ exit_status (main E_quitting 10 args_ui_only init) = Exit 0.
Proof.
  exact (main_ui_only_exit E_quitting 10 args_ui_only _ 60000%N 0
           eq_refl eq_refl eq_refl eq_refl eq_refl).
Defined.

(** * The supervisor, claim by claim *)

(** ** Shutdown order *)



(** ** The environment of the UI *)



(** ** Exit status *)



(** ** Failures of the health probe *)




(** ** The wait of the Running state *)









(** ** Spawns and the stop request *)











(** C1 in a run in which it is the exit of the API, after 30 s, that ends
    the wait: the UI is terminated; nothing is done to the API, whose exit
    has been observed. *)
Example api_exit_run :
  drop 6 (run_events E_api_exits 100 args0)
  = [AwaitAny [WaitTask Api; WaitTask Ui; StopTask];
     Print "[tui] terminating…"; SigTerm Ui; WaitFor Ui 5000;
     Print "[tui] exited with -15";
     CancelIfPending (PipeOut Api); CancelIfPending (PipeErr Api);
     CancelIfPending (PipeOut Ui); CancelIfPending (PipeErr Ui);
     Print "All done."].
Proof. vm_compute. reflexivity. Qed.

(** ** The tasks left at the end *)

